(** * dephell_setuptools: the static and the subprocess reader

    A shallow embedding of [src/dephell_setuptools/_static.py] (class
    [StaticReader]) and of [src/dephell_setuptools/_cmd.py] (the context
    manager [cd] and the classes [CommandReader] and [JSONCommand]), with
    the properties the specification states about them.

    Python values that may be [None] are [option]s; a Python call that may
    raise returns in the error monad [exn].  The interpreter is Python 3.8
    to 3.13. *)

From Stdlib Require Import Ascii Strings.Byte QArith Qcanon.
From stdpp Require Import base option list strings gmap.

Set Warnings "-register-all".
Local Open Scope string_scope.
Local Open Scope list_scope.

(** ** Exceptions *)

(** A Python [str] that the code takes apart: the list of its code
    points. *)
Definition text : Type := list N.

(** The exceptions of the modelled code: [AttributeError] when an attribute
    is read on an object that lacks it, [IndexError] when a list is indexed
    out of range, the [RuntimeError] that [CommandReader.content] raises
    itself, [UnicodeDecodeError] when bytes that are not UTF-8 are decoded,
    [OSError] (with its subclasses, such as [FileNotFoundError]) for a path
    that the operating system refuses, and the [SyntaxError] of
    [ast.parse]. *)
Inductive pyexn : Type :=
| AttributeError
| IndexError
| RuntimeError (msg : text)
| UnicodeDecodeError
| OSError (path : string)
| SyntaxError.

Inductive exn (A : Type) : Type :=
| Ok (a : A)
| Raise (e : pyexn).
Arguments Ok {A} a.
Arguments Raise {A} e.

#[global] Instance exn_ret : MRet exn := fun _ a => Ok a.
#[global] Instance exn_bind : MBind exn := fun _ _ f m =>
  match m with
  | Ok a => f a
  | Raise e => Raise e
  end.

(** ** Syntax trees *)

(** A real number or infinity: the value of a number literal, which is
    never negative and, for a float literal out of range, infinite. *)
Inductive real : Type :=
| Finite (q : Qc)
| Infinity.

(** The value of a literal that is neither a string nor bytes, as far as
    Python's [==] and [hash] tell such values apart: [None], [...] and the
    numbers with their real and imaginary parts.  Among the numbers [True]
    is [1], [False] is [0], and [1.0] and [1 + 0j] are [1]: as a key of a
    dict, and as an element of a list that is compared, they are the same
    value. *)
Inductive constant : Type :=
| CNone
| CEllipsis
| CNumber (re im : real).

(** The integer literal [n]. *)
Definition CInt (n : Z) : constant :=
  CNumber (Finite (Qc_of_Z n)) (Finite (Qc_of_Z 0)).

(** The node classes of Python's [ast] module that the reader tells apart.
    Every literal is parsed to an [ast.Constant]: [Str] is one whose value
    is a [str] (the nodes that [isinstance(x, ast.Str)] accepts), [Bytes]
    one whose value is a [bytes] object, and [Constant] one with any other
    value.  These three are the nodes with an attribute [s].  (Before Python
    3.8 the node classes of numbers, [None], [True] and [False] had no
    attribute [s]; the difference is confined to [Constant].)  Every other
    node class (imports, attributes, operators, loops, f-strings, ...) is
    [Other]; the reader never looks inside one, and none has an attribute
    [s].  A [**mapping] argument of a call is a keyword whose [arg] is
    [None]; a [**mapping] entry of a dict display has the key [None]. *)
Inductive node : Type :=
| FunctionDef (name : string) (body : list node)
| If (test : node) (body orelse : list node)
| Expr (value : node)
| Assign (targets : list node) (value : node)
| Call (func : node) (args : list node) (keywords : list keyword)
| Name (id : string)
| Str (s : string)
| Bytes (s : string)
| List (elts : list node)
| Dict (keys : list (option node)) (values : list node)
| Other (kind : string)
| Constant (value : constant)
with keyword : Type :=
| Keyword (arg : option string) (value : node).

(** [keyword.arg] *)
Definition keyword_arg (k : keyword) : option string :=
  match k with Keyword arg _ => arg end.

#[global] Instance real_eq_dec : EqDecision real.
Proof. solve_decision. Defined.

#[global] Instance real_countable : Countable real.
Proof.
  refine (inj_countable'
            (fun r => match r with Finite q => Some q | Infinity => None end)
            (fun x => match x with Some q => Finite q | None => Infinity end)
            _).
  by intros [].
Defined.

#[global] Instance constant_eq_dec : EqDecision constant.
Proof. solve_decision. Defined.

#[global] Instance constant_countable : Countable constant.
Proof.
  refine (inj_countable'
            (fun c => match c with
                      | CNone => inl false
                      | CEllipsis => inl true
                      | CNumber re im => inr (re, im)
                      end)
            (fun x => match x with
                      | inl false => CNone
                      | inl true => CEllipsis
                      | inr (re, im) => CNumber re im
                      end) _).
  by intros [].
Defined.

(** The value of an attribute [s]: a [str], a [bytes] object, or the value
    of another literal. *)
Inductive pyval : Type :=
| VStr (s : string)
| VBytes (s : string)
| VConstant (value : constant).

#[global] Instance pyval_eq_dec : EqDecision pyval.
Proof. solve_decision. Defined.

#[global] Instance pyval_countable : Countable pyval.
Proof.
  refine (inj_countable'
            (fun v => match v with
                      | VStr s => inl (inl s)
                      | VBytes s => inl (inr s)
                      | VConstant c => inr c
                      end)
            (fun x => match x with
                      | inl (inl s) => VStr s
                      | inl (inr s) => VBytes s
                      | inr c => VConstant c
                      end) _).
  by intros [].
Defined.

(** ** [_static.py] *)

Module Static.

(** [x.s] for a node [x]: the value of a literal, whatever its type; any
    other node has no such attribute. *)
Definition attr_s (x : node) : exn pyval :=
  match x with
  | Str s => Ok (VStr s)
  | Bytes s => Ok (VBytes s)
  | Constant value => Ok (VConstant value)
  | _ => Raise AttributeError
  end.

(** [x.s] for a dict key, which may be [None] *)
Definition key_s (key : option node) : exn pyval :=
  match key with
  | Some k => attr_s k
  | None => Raise AttributeError
  end.

(** *** [_get_body] (lines 35-46) *)

(** What one iteration of the [for] loop of [_get_body] yields for
    [element].  The branch for [ast.If] has no [continue]: after the
    statements of the body the loop falls through to [yield element]. *)
Fixpoint _get_body_element (element : node) : list node :=
  match element with
  | FunctionDef _ body => flat_map _get_body_element body
  | If _ body _ => flat_map _get_body_element body ++ [element]
  | Expr value => [value]
  | _ => [element]
  end.

Definition _get_body (elements : list node) : list node :=
  flat_map _get_body_element elements.

(** *** [_get_call] (lines 48-57) *)

Fixpoint _get_call_scan (flattened : list node) : option node :=
  match flattened with
  | [] => None
  | element :: rest =>
      match element with
      | Call func _ _ =>
          match func with
          | Name id => if bool_decide (id ≠ "setup") then _get_call_scan rest
                       else Some element
          | _ => _get_call_scan rest
          end
      | _ => _get_call_scan rest
      end
  end.

Definition _get_call (elements : list node) : option node :=
  _get_call_scan (_get_body elements).

(** *** The reader and its cached properties (lines 23-33) *)

(** A reader whose cached property [tree] has been computed: [tree] is the
    parsed file, the only thing the rest of the class reads.  The
    computation of [tree] itself (line 25) is [load_tree] below. *)
Record StaticReader : Type := { tree : list node }.

Definition call (self : StaticReader) : option node := _get_call (tree self).
Definition body (self : StaticReader) : list node := _get_body (tree self).

(** *** [_find_in_call] (lines 182-186) *)

Fixpoint _find_in_call_scan (keywords : list keyword) (name : string)
  : option node :=
  match keywords with
  | [] => None
  | Keyword arg value :: rest =>
      if bool_decide (arg = Some name) then Some value
      else _find_in_call_scan rest name
  end.

(** The callers pass a [Call] node or [None]; [None.keywords] raises. *)
Definition _find_in_call (call : option node) (name : string)
  : exn (option node) :=
  match call with
  | Some (Call _ _ keywords) => Ok (_find_in_call_scan keywords name)
  | _ => Raise AttributeError
  end.

(** *** [_find_call_kwargs] (lines 188-192) *)

Fixpoint _find_call_kwargs_scan (reversed : list keyword) : option node :=
  match reversed with
  | [] => None
  | Keyword arg value :: rest =>
      match arg with
      | None => Some value
      | Some _ => _find_call_kwargs_scan rest
      end
  end.

Definition _find_call_kwargs (call : option node) : exn (option node) :=
  match call with
  | Some (Call _ _ keywords) => Ok (_find_call_kwargs_scan (rev keywords))
  | _ => Raise AttributeError
  end.

(** *** [_find_variable_in_body] (lines 194-203) *)

(** The inner loop over [elem.targets]: whether it reaches the [return]. *)
Fixpoint targets_bind (targets : list node) (name : string) : bool :=
  match targets with
  | [] => false
  | target :: rest =>
      match target with
      | Name id => if bool_decide (id = name) then true
                   else targets_bind rest name
      | _ => targets_bind rest name
      end
  end.

Fixpoint _find_variable_in_body (body : list node) (name : string)
  : option node :=
  match body with
  | [] => None
  | elem :: rest =>
      match elem with
      | Assign targets value =>
          if targets_bind targets name then Some value
          else _find_variable_in_body rest name
      | _ => _find_variable_in_body rest name
      end
  end.

(** *** [_find_in_dict] (lines 205-208) *)

Fixpoint _find_in_dict_scan (items : list (option node * node))
    (name : string) : option node :=
  match items with
  | [] => None
  | (key, val) :: rest =>
      match key with
      | Some (Str s) => if bool_decide (s = name) then Some val
                        else _find_in_dict_scan rest name
      | _ => _find_in_dict_scan rest name
      end
  end.

(** The callers pass a [Dict] node. *)
Definition _find_in_dict (dict_ : option node) (name : string)
  : exn (option node) :=
  match dict_ with
  | Some (Dict keys values) => Ok (_find_in_dict_scan (zip keys values) name)
  | _ => Raise AttributeError
  end.

(** *** [_find_single_string] (lines 147-180) *)

(** Lines 171-180, reached with [value] from the call itself or from the
    unpacked mapping; every [return] before line 171 returns [None]. *)
Definition single_string_of (self : StaticReader) (value : option node)
  : exn (option string) :=
  match value with
  | None => Ok None
  | Some (Str s) => Ok (Some s)
  | Some (Name id) =>
      let variable := _find_variable_in_body (body self) id in
      match variable with
      | Some (Str s) => Ok (Some s)
      | _ => Ok None
      end
  | Some _ => Ok None
  end.

Definition _find_single_string (self : StaticReader) (name : string)
  : exn (option string) :=
  value ← _find_in_call (call self) name;
  match value with
  | Some _ => single_string_of self value
  | None =>
      kwargs ← _find_call_kwargs (call self);
      match kwargs with
      | Some (Name id) =>
          let variable := _find_variable_in_body (body self) id in
          match variable with
          | Some (Call func _ _) =>
              match func with
              | Name fid =>
                  if bool_decide (fid ≠ "dict") then Ok None
                  else value ← _find_in_call variable name;
                       single_string_of self value
              | _ => Ok None
              end
          | Some (Dict _ _) =>
              value ← _find_in_dict variable name;
              single_string_of self value
          | _ => Ok None
          end
      | _ => Ok None
      end
  end.

(** *** [_find_install_requires] (lines 59-96) *)

(** Lines 83-96.  The loops append [el.s] for every element, whatever its
    node class. *)
Definition install_requires_of (self : StaticReader) (value : option node)
  : exn (list pyval) :=
  match value with
  | None => Ok []
  | Some (List elts) => mapM attr_s elts
  | Some (Name id) =>
      let variable := _find_variable_in_body (body self) id in
      match variable with
      | Some (List elts) => mapM attr_s elts
      | _ => Ok []
      end
  | Some _ => Ok []
  end.

Definition _find_install_requires (self : StaticReader) : exn (list pyval) :=
  value ← _find_in_call (call self) "install_requires";
  match value with
  | Some _ => install_requires_of self value
  | None =>
      kwargs ← _find_call_kwargs (call self);
      match kwargs with
      | Some (Name id) =>
          let variable := _find_variable_in_body (body self) id in
          match variable with
          | Some (Call func _ _) =>
              match func with
              | Name fid =>
                  if bool_decide (fid ≠ "dict") then Ok []
                  else value ← _find_in_call variable "install_requires";
                       install_requires_of self value
              | _ => Ok []
              end
          | Some (Dict _ _) =>
              value ← _find_in_dict variable "install_requires";
              install_requires_of self value
          | _ => Ok []
          end
      | _ => Ok []
      end
  end.

(** *** [_find_extras_require] (lines 98-145) *)

(** The dict the function fills: the values of literals as keys, lists of
    such values as values.  Keys that Python's [==] takes for equal are the
    same key. *)
Abbreviation extras := (gmap pyval (list pyval)).

(** The loop over [zip(keys, values)] of lines 126-131, repeated as lines
    138-143.  In [extras_require[key.s] = [e.s for e in val.elts]] the list
    is built before [key.s] is read. *)
Fixpoint extras_loop (self : StaticReader) (items : list (option node * node))
    (extras_require : extras) : exn extras :=
  match items with
  | [] => Ok extras_require
  | (key, val) :: rest =>
      let val := match val with
                 | Name id => _find_variable_in_body (body self) id
                 | _ => Some val
                 end in
      match val with
      | Some (List elts) =>
          l ← mapM attr_s elts;
          k ← key_s key;
          extras_loop self rest (<[k := l]> extras_require)
      | _ => extras_loop self rest extras_require
      end
  end.

(** Lines 122-145. *)
Definition extras_require_of (self : StaticReader) (value : option node)
  : exn extras :=
  match value with
  | None => Ok ∅
  | Some (Dict keys values) => extras_loop self (zip keys values) ∅
  | Some (Name id) =>
      let variable := _find_variable_in_body (body self) id in
      match variable with
      | Some (Dict keys values) => extras_loop self (zip keys values) ∅
      | _ => Ok ∅
      end
  | Some _ => Ok ∅
  end.

Definition _find_extras_require (self : StaticReader) : exn extras :=
  value ← _find_in_call (call self) "extras_require";
  match value with
  | Some _ => extras_require_of self value
  | None =>
      kwargs ← _find_call_kwargs (call self);
      match kwargs with
      | Some (Name id) =>
          let variable := _find_variable_in_body (body self) id in
          match variable with
          | Some (Call func _ _) =>
              match func with
              | Name fid =>
                  if bool_decide (fid ≠ "dict") then Ok ∅
                  else value ← _find_in_call variable "extras_require";
                       extras_require_of self value
              | _ => Ok ∅
              end
          | Some (Dict _ _) =>
              value ← _find_in_dict variable "extras_require";
              extras_require_of self value
          | _ => Ok ∅
          end
      | _ => Ok ∅
      end
  end.

(** *** [content] (lines 9-21) *)

(** [content] of a reader whose [tree] has been computed; [load_content]
    below is [content] together with the computation of [tree].

    A value of the result dict. *)
Inductive field_value : Type :=
| FString (v : option string)
| FList (v : list pyval)
| FDict (v : extras).

Definition content (self : StaticReader)
  : exn (option (gmap string field_value)) :=
  match call self with
  | None => Ok None
  | Some _ =>
      name ← _find_single_string self "name";
      version ← _find_single_string self "version";
      python_requires ← _find_single_string self "python_requires";
      install_requires ← _find_install_requires self;
      extras_require ← _find_extras_require self;
      Ok (Some (list_to_map
                  [("name", FString name);
                   ("version", FString version);
                   ("python_requires", FString python_requires);
                   ("install_requires", FList install_requires);
                   ("extras_require", FDict extras_require)]))
  end.

(** *** [tree] (lines 23-25) and the first access of [content] *)

(** A reader none of whose cached properties has been read yet.
    [read_text] is the outcome of [self.path.read_text(encoding='utf8')],
    which raises when the file cannot be read or is not UTF-8; [ast_parse]
    is [ast.parse(source).body], which raises [SyntaxError] (and more) on
    text that is no Python module. *)
Record Unparsed : Type := {
  read_text : exn string;
  ast_parse : string → exn (list node)
}.

(** Line 25: the first access of [self.tree].  An exception leaves nothing
    cached. *)
Definition load_tree (fresh : Unparsed) : exn (list node) :=
  source ← read_text fresh; ast_parse fresh source.

(** [content] of a fresh reader: line 11 reads [self.call], which (line 29)
    reads [self.tree] before anything else is done. *)
Definition load_content (fresh : Unparsed)
  : exn (option (gmap string field_value)) :=
  elements ← load_tree fresh; content {| tree := elements |}.

(** *** The names that the resolvers look up *)

(** Lines 89-90, 174-175 and 133-134: a value that is a bare name is passed
    to [_find_variable_in_body]. *)
Definition name_of (value : option node) : list string :=
  match value with
  | Some (Name id) => [id]
  | _ => []
  end.

(** The names that a resolver passes to [_find_variable_in_body], in the
    order of the calls: the name of the [**] argument (lines 68, 107 and
    156), if the field is no keyword of the call, and then the names of the
    rest of the resolver, [tail_names], on the value found for the field. *)
Definition lookups (self : StaticReader) (field : string)
    (tail_names : option node → list string) : list string :=
  match _find_in_call (call self) field with
  | Ok (Some value) => tail_names (Some value)
  | Ok None =>
      match _find_call_kwargs (call self) with
      | Ok (Some (Name id)) =>
          id :: match _find_variable_in_body (body self) id with
                | Some (Call (Name fid) _ keywords) =>
                    if bool_decide (fid ≠ "dict") then []
                    else tail_names (_find_in_call_scan keywords field)
                | Some (Dict keys values) =>
                    tail_names (_find_in_dict_scan (zip keys values) field)
                | _ => []
                end
      | _ => []
      end
  | Raise _ => []
  end.

(** The loop of lines 126-131 and 138-143: every value that is a bare name
    is looked up, until the loop raises. *)
Fixpoint extras_loop_lookups (self : StaticReader)
    (items : list (option node * node)) : list string :=
  match items with
  | [] => []
  | (key, val) :: rest =>
      let names := name_of (Some val) in
      let val := match val with
                 | Name id => _find_variable_in_body (body self) id
                 | _ => Some val
                 end in
      match val with
      | Some (List elts) =>
          match l ← mapM attr_s elts; key_s key with
          | Ok _ => names ++ extras_loop_lookups self rest
          | Raise _ => names
          end
      | _ => names ++ extras_loop_lookups self rest
      end
  end.

(** Lines 122-145 *)
Definition extras_require_lookups_of (self : StaticReader)
    (value : option node) : list string :=
  match value with
  | Some (Dict keys values) => extras_loop_lookups self (zip keys values)
  | Some (Name id) =>
      id :: match _find_variable_in_body (body self) id with
            | Some (Dict keys values) =>
                extras_loop_lookups self (zip keys values)
            | _ => []
            end
  | _ => []
  end.

Definition single_string_lookups (self : StaticReader) (field : string)
  : list string :=
  lookups self field name_of.

Definition install_requires_lookups (self : StaticReader) : list string :=
  lookups self "install_requires" name_of.

Definition extras_require_lookups (self : StaticReader) : list string :=
  lookups self "extras_require" (extras_require_lookups_of self).

(** The names looked up while [content] runs (lines 11-21): those of the
    five resolvers in the order of the calls; a resolver that raises ends
    [content], and only [_find_install_requires] can do so before the last
    one is run. *)
Definition consulted (self : StaticReader) : list string :=
  match call self with
  | None => []
  | Some _ =>
      single_string_lookups self "name"
      ++ single_string_lookups self "version"
      ++ single_string_lookups self "python_requires"
      ++ install_requires_lookups self
      ++ match _find_install_requires self with
         | Ok _ => extras_require_lookups self
         | Raise _ => []
         end
  end.

(** What the three resolvers share (lines 60-81, 99-120 and 148-169): they
    differ in [default], the value returned when the resolution stops, and
    in [tail], their last part. *)
Definition resolve {R : Type} (self : StaticReader) (field : string)
    (default : R) (tail : option node → exn R) : exn R :=
  value ← _find_in_call (call self) field;
  match value with
  | Some _ => tail value
  | None =>
      kwargs ← _find_call_kwargs (call self);
      match kwargs with
      | Some (Name id) =>
          let variable := _find_variable_in_body (body self) id in
          match variable with
          | Some (Call func _ _) =>
              match func with
              | Name fid =>
                  if bool_decide (fid ≠ "dict") then Ok default
                  else value ← _find_in_call variable field;
                       tail value
              | _ => Ok default
              end
          | Some (Dict _ _) =>
              value ← _find_in_dict variable field;
              tail value
          | _ => Ok default
          end
      | _ => Ok default
      end
  end.

(** *** Predicates on nodes, for the statements below *)

(** A call whose callee is the bare name [setup]. *)
Definition is_setup_call (element : node) : bool :=
  match element with
  | Call (Name id) _ _ => bool_decide (id = "setup")
  | _ => false
  end.

(** An assignment statement. *)
Definition is_Assign (element : node) : bool :=
  match element with
  | Assign _ _ => true
  | _ => false
  end.

(** An [if] statement. *)
Definition is_If (element : node) : bool :=
  match element with
  | If _ _ _ => true
  | _ => false
  end.

(** A keyword with a name, as opposed to a [**mapping] argument. *)
Definition named (k : keyword) : bool :=
  match keyword_arg k with Some _ => true | None => false end.

(** An assignment statement with the bare name [name] among its targets. *)
Definition binds (name : string) (elem : node) : bool :=
  match elem with
  | Assign targets _ => targets_bind targets name
  | _ => false
  end.

(** Two readers that resolve every field to the same value. *)
Definition same_fields (s1 s2 : StaticReader) : Prop :=
  (∀ field, _find_single_string s1 field = _find_single_string s2 field) ∧
  _find_install_requires s1 = _find_install_requires s2 ∧
  _find_extras_require s1 = _find_extras_require s2 ∧
  content s1 = content s2.

End Static.

(** ** [_cmd.py] *)

Module Cmd.

(** [result.stderr] is a [bytes] object; [decode()] makes a [str] of it,
    which is taken apart by code points. *)

Definition LF : N := 10%N.

(** [str.isspace] on one code point: Python counts as whitespace the code
    points 9-13, 28-32, 133, 160, 5760, 8192-8202, 8232, 8233, 8239, 8287
    and 12288. *)
Definition isspace (c : N) : bool :=
  ((9 <=? c) && (c <=? 13) || (28 <=? c) && (c <=? 32)
   || (c =? 133) || (c =? 160) || (c =? 5760)
   || (8192 <=? c) && (c <=? 8202)
   || (c =? 8232) || (c =? 8233) || (c =? 8239) || (c =? 8287)
   || (c =? 12288))%N.

(** [s.lstrip()] *)
Fixpoint lstrip (s : text) : text :=
  match s with
  | [] => []
  | c :: rest => if isspace c then lstrip rest else s
  end.

(** [s.rstrip()] *)
Fixpoint rstrip (s : text) : text :=
  match s with
  | [] => []
  | c :: rest =>
      match rstrip rest with
      | [] => if isspace c then [] else [c]
      | kept => c :: kept
      end
  end.

(** [s.strip()] *)
Definition strip (s : text) : text := rstrip (lstrip s).

(** [s.split('\n')]: the pieces between line feeds, never an empty list *)
Fixpoint split_lf (s : text) : list text :=
  match s with
  | [] => [[]]
  | c :: rest =>
      if bool_decide (c = LF) then [] :: split_lf rest
      else match split_lf rest with
           | piece :: pieces => (c :: piece) :: pieces
           | [] => [[c]]
           end
  end.

(** *** [bytes.decode()] *)

(** A continuation byte of UTF-8 *)
Definition continuation (b : N) : bool := ((128 <=? b) && (b <=? 191))%N.

(** The byte after the first byte [b0] of a sequence of three: overlong
    forms and surrogates are no UTF-8. *)
Definition second_of_3 (b0 b1 : N) : bool :=
  (if b0 =? 224 then (160 <=? b1) && (b1 <=? 191)
   else if b0 =? 237 then (128 <=? b1) && (b1 <=? 159)
   else continuation b1)%N.

(** The byte after the first byte [b0] of a sequence of four: overlong forms
    and code points above 1114111 are no UTF-8. *)
Definition second_of_4 (b0 b1 : N) : bool :=
  (if b0 =? 240 then (144 <=? b1) && (b1 <=? 191)
   else if b0 =? 244 then (128 <=? b1) && (b1 <=? 143)
   else continuation b1)%N.

(** The code points of a sequence of bytes that is UTF-8 *)
Fixpoint utf8 (bs : list N) : option text :=
  match bs with
  | [] => Some []
  | b0 :: r0 =>
      if (b0 <? 128)%N then cons b0 <$> utf8 r0
      else if ((194 <=? b0) && (b0 <=? 223))%N then
        match r0 with
        | b1 :: r1 =>
            if continuation b1
            then cons ((b0 - 192) * 64 + (b1 - 128))%N <$> utf8 r1
            else None
        | _ => None
        end
      else if ((224 <=? b0) && (b0 <=? 239))%N then
        match r0 with
        | b1 :: b2 :: r2 =>
            if second_of_3 b0 b1 && continuation b2
            then cons ((b0 - 224) * 4096 + (b1 - 128) * 64
                       + (b2 - 128))%N <$> utf8 r2
            else None
        | _ => None
        end
      else if ((240 <=? b0) && (b0 <=? 244))%N then
        match r0 with
        | b1 :: b2 :: b3 :: r3 =>
            if second_of_4 b0 b1 && continuation b2 && continuation b3
            then cons ((b0 - 240) * 262144 + (b1 - 128) * 4096
                       + (b2 - 128) * 64 + (b3 - 128))%N <$> utf8 r3
            else None
        | _ => None
        end
      else None
  end.

(** [b.decode()]: the codec is UTF-8 and errors are strict *)
Definition decode (b : list byte) : exn text :=
  match utf8 (Byte.to_N <$> b) with
  | Some s => Ok s
  | None => Raise UnicodeDecodeError
  end.

(** *** Predicates on texts, for the statements below *)

(** Every character is whitespace. *)
Fixpoint all_space (s : text) : bool :=
  match s with
  | [] => true
  | c :: rest => isspace c && all_space rest
  end.

(** No character is a line feed. *)
Fixpoint no_lf (s : text) : bool :=
  match s with
  | [] => true
  | c :: rest => negb (bool_decide (c = LF)) && no_lf rest
  end.

Fixpoint last_char (s : text) : option N :=
  match s with
  | [] => None
  | [c] => Some c
  | _ :: rest => last_char rest
  end.

(** A text that is not empty and neither starts nor ends with whitespace. *)
Definition trimmed (s : text) : bool :=
  match s, last_char s with
  | a :: _, Some z => negb (isspace a) && negb (isspace z)
  | _, _ => false
  end.

(** The [str] and the [bytes] object with the given ASCII characters, for
    examples; [NL] is the string with the one character that ends a line. *)
Definition str (s : string) : text :=
  (λ c, N_of_ascii c) <$> String.list_ascii_of_string s.

Definition bytes (s : string) : list byte := String.list_byte_of_string s.

Definition NL : string := String (ascii_of_nat 10) EmptyString.

(** What [content] reads of the [CompletedProcess] that [subprocess.run]
    returns: the return code and the bytes of the error stream. *)
Record CompletedProcess : Type := {
  returncode : Z;
  stderr : list byte
}.

(** Lines 48-53 of [content], after the child process has run.  Lines 51-53
    read the JSON file and pass it to [BaseReader._clean], which is not part
    of the two source files; [load_and_clean] stands for their outcome. *)
Definition content {A : Type} (result : CompletedProcess)
    (load_and_clean : exn A) : exn A :=
  if bool_decide (returncode result ≠ 0%Z) then
    decoded ← decode (stderr result);
    match last (split_lf (strip decoded)) with
    | Some line => Raise (RuntimeError line)
    | None => Raise IndexError
    end
  else load_and_clean.

End Cmd.

(** ** The specification's wording, for comparison with the code *)

Module Spec.

(** The flattener as section 4.1 of the specification words it: function
    definitions and [if] statements are replaced by their flattened bodies,
    an expression statement by its expression, anything else is kept. *)
Fixpoint flatten_element (element : node) : list node :=
  match element with
  | FunctionDef _ body => flat_map flatten_element body
  | If _ body _ => flat_map flatten_element body
  | Expr value => [value]
  | _ => [element]
  end.

Definition flatten (elements : list node) : list node :=
  flat_map flatten_element elements.

(** The first assignment statement of a flattened body with a target that is
    the bare name [name]: the "first-occurrence assignment" of the name. *)
Fixpoint first_assignment (body : list node) (name : string) : option node :=
  match body with
  | [] => None
  | elem :: rest =>
      match elem with
      | Assign targets _ =>
          if Static.targets_bind targets name then Some elem
          else first_assignment rest name
      | _ => first_assignment rest name
      end
  end.

(** A statement the specification calls unrelated to the resolved fields:
    neither the located call nor the first-occurrence assignment of any
    name. *)
Definition unrelated (self : Static.StaticReader) (u : node) : Prop :=
  Static.call self ≠ Some u ∧
  ∀ name, first_assignment (Static.body self) name ≠ Some u.

(** The lines of a text: the pieces that line feeds end; a last piece
    without a line feed is a line too. *)
Fixpoint lines (s : text) : list text :=
  match s with
  | [] => []
  | c :: rest =>
      if bool_decide (c = Cmd.LF) then [] :: lines rest
      else match lines rest with
           | line :: more => (c :: line) :: more
           | [] => [[c]]
           end
  end.

(** The last line of a text; a text without lines has none. *)
Definition last_line (s : text) : option text := last (lines s).

End Spec.

(** ** Scripts *)

(** Syntax trees of small scripts, as [ast.parse] returns their bodies. *)
Module Scripts.
Import Static.

Definition setup_call (keywords : list keyword) : node :=
  Expr (Call (Name "setup") [] keywords).

(** [version = "2.0"; setup(version=version)] *)
Definition version_alias : StaticReader :=
  {| tree := [Assign [Name "version"] (Str "2.0");
              setup_call [Keyword (Some "version") (Name "version")]] |}.

(** [version = "1.0"; version = "2.0"; setup(version=version)] *)
Definition reassigned : StaticReader :=
  {| tree := [Assign [Name "version"] (Str "1.0");
              Assign [Name "version"] (Str "2.0");
              setup_call [Keyword (Some "version") (Name "version")]] |}.

(** [version = "2.0"; version = "1.0"; setup(version=version)] *)
Definition reassigned_moved : StaticReader :=
  {| tree := [Assign [Name "version"] (Str "2.0");
              Assign [Name "version"] (Str "1.0");
              setup_call [Keyword (Some "version") (Name "version")]] |}.

(** [kwargs = dict(install_requires=["a", "b"])], then [setup] called with
    the one argument [**kwargs] *)
Definition dict_kwargs : StaticReader :=
  {| tree := [Assign [Name "kwargs"]
                (Call (Name "dict") []
                   [Keyword (Some "install_requires")
                      (List [Str "a"; Str "b"])]);
              setup_call [Keyword None (Name "kwargs")]] |}.

(** [kwargs = 1], then [setup] called with the one argument [**kwargs] *)
Definition number_kwargs : StaticReader :=
  {| tree := [Assign [Name "kwargs"] (Constant (CInt 1));
              setup_call [Keyword None (Name "kwargs")]] |}.

(** [setup(install_requires=[foo])] *)
Definition name_element : StaticReader :=
  {| tree := [setup_call
                [Keyword (Some "install_requires") (List [Name "foo"])]] |}.

(** [setup(extras_require={foo: ["x"]})] *)
Definition name_key : StaticReader :=
  {| tree := [setup_call
                [Keyword (Some "extras_require")
                   (Dict [Some (Name "foo")] [List [Str "x"]])]] |}.

(** [setup(name="x", version="1.0")] *)
Definition plain : StaticReader :=
  {| tree := [setup_call [Keyword (Some "name") (Str "x");
                          Keyword (Some "version") (Str "1.0")]] |}.

(** [import os; version = "2.0"; setup(version=version)] *)
Definition import_first : StaticReader :=
  {| tree := [Other "Import";
              Assign [Name "version"] (Str "2.0");
              setup_call [Keyword (Some "version") (Name "version")]] |}.

(** [version = "2.0"; setup(version=version); import os] *)
Definition import_last : StaticReader :=
  {| tree := [Assign [Name "version"] (Str "2.0");
              setup_call [Keyword (Some "version") (Name "version")];
              Other "Import"] |}.

(** [version = "1"; setup(version=version); setup(version="2")] *)
Definition two_calls : StaticReader :=
  {| tree := [Assign [Name "version"] (Str "1");
              setup_call [Keyword (Some "version") (Name "version")];
              setup_call [Keyword (Some "version") (Str "2")]] |}.

(** [version = "1"; setup(version=version); setup(name="other")] *)
Definition two_calls_changed : StaticReader :=
  {| tree := [Assign [Name "version"] (Str "1");
              setup_call [Keyword (Some "version") (Name "version")];
              setup_call [Keyword (Some "name") (Str "other")]] |}.

(** [name = "pkg"; Version = "0"; version = "1.0"; version = "2.0";
    setup(version=version)] *)
Definition other_names_first : StaticReader :=
  {| tree := [Assign [Name "name"] (Str "pkg");
              Assign [Name "Version"] (Str "0");
              Assign [Name "version"] (Str "1.0");
              Assign [Name "version"] (Str "2.0");
              setup_call [Keyword (Some "version") (Name "version")]] |}.

(** [a = "1"; a = "2"; version = "1.0"; setup(version=version)] *)
Definition unread_first : StaticReader :=
  {| tree := [Assign [Name "a"] (Str "1");
              Assign [Name "a"] (Str "2");
              Assign [Name "version"] (Str "1.0");
              setup_call [Keyword (Some "version") (Name "version")]] |}.

(** [a = "2"; version = "1.0"; a = "1"; setup(version=version)] *)
Definition unread_moved : StaticReader :=
  {| tree := [Assign [Name "a"] (Str "2");
              Assign [Name "version"] (Str "1.0");
              Assign [Name "a"] (Str "1");
              setup_call [Keyword (Some "version") (Name "version")]] |}.

(** [import os], with no call at all *)
Definition no_call : StaticReader := {| tree := [Other "Import"] |}.

(** [if x: a = "1"] *)
Definition guarded : list node :=
  [If (Name "x") [Assign [Name "a"] (Str "1")] []].

(** [a = {"name": "x"}; b = {"version": "1"}], then [setup] called with the
    two arguments [**a, **b] *)
Definition two_unpacked : StaticReader :=
  {| tree := [Assign [Name "a"] (Dict [Some (Str "name")] [Str "x"]);
              Assign [Name "b"] (Dict [Some (Str "version")] [Str "1"]);
              setup_call [Keyword None (Name "a");
                          Keyword None (Name "b")]] |}.

(** [a = {"name": "x"}; b = {"version": "1"}], then [setup] called with the
    one argument [**b] *)
Definition one_unpacked : StaticReader :=
  {| tree := [Assign [Name "a"] (Dict [Some (Str "name")] [Str "x"]);
              Assign [Name "b"] (Dict [Some (Str "version")] [Str "1"]);
              setup_call [Keyword None (Name "b")]] |}.

End Scripts.

(** ** Shapes of trees, for further statements about [_static.py] *)

Module Shape.
Import Static.

(** The tree with every else-branch that the flattener can reach emptied:
    the [if] statements of the module body, of function bodies and of
    [if] bodies, at any depth. *)
Fixpoint drop_orelse (element : node) : node :=
  match element with
  | FunctionDef name body => FunctionDef name (map drop_orelse body)
  | If test body _ => If test (map drop_orelse body) []
  | _ => element
  end.

(** A node with an attribute [s]: a literal. *)
Definition has_s (x : node) : bool :=
  match x with
  | Str _ | Bytes _ | Constant _ => true
  | _ => false
  end.


(** What the entry stores in the result of [_find_extras_require]. *)
Definition str_value (entry : string * list string) : pyval * list pyval :=
  (VStr entry.1, VStr <$> entry.2).


(** [if a: setup(name="x") else: setup(name="y")] *)
Definition else_setup : StaticReader :=
  {| tree := [If (Name "a")
                [Scripts.setup_call [Keyword (Some "name") (Str "x")]]
                [Scripts.setup_call [Keyword (Some "name") (Str "y")]]] |}.

(** [if a: setup(name="x") else: name = "z"] *)
Definition else_assign : StaticReader :=
  {| tree := [If (Name "a")
                [Scripts.setup_call [Keyword (Some "name") (Str "x")]]
                [Assign [Name "name"] (Str "z")]] |}.

(** [setup(install_requires=["a", "b", "a"])] *)
Definition requires_literal : StaticReader :=
  {| tree := [Scripts.setup_call
                [Keyword (Some "install_requires")
                   (List (Str <$> ["a"; "b"; "a"]))]] |}.

(** [setup(install_requires=["a", 1, None])] *)
Definition requires_constants : StaticReader :=
  {| tree := [Scripts.setup_call
                [Keyword (Some "install_requires")
                   (List [Str "a"; Constant (CInt 1); Constant CNone])]] |}.

(** A file that holds [setup(install_requires=[foo])] *)
Definition file_name_element : Unparsed :=
  {| read_text := Ok "setup(install_requires=[foo])";
     ast_parse := λ _, Ok (tree Scripts.name_element) |}.

(** A file that holds [setup(] *)
Definition file_open_call : Unparsed :=
  {| read_text := Ok "setup(";
     ast_parse := λ _, Raise SyntaxError |}.


End Shape.

(** ** [_cmd.py]: the working directory and the child process *)

Module Os.

(** The process as [cd] and [CommandReader.content] see it: its working
    directory, and everything else (the file system, what child processes
    do), which the model leaves abstract. *)
Record world (D : Type) : Type := { cwd : string; disk : D }.
Arguments cwd {D} w.
Arguments disk {D} w.

(** A Python computation that reads and changes the world and returns or
    raises. *)
Definition io (D A : Type) : Type := world D → exn A * world D.

Definition io_bind {D A B : Type} (m : io D A) (f : A → io D B) : io D B :=
  λ w, match m w with
       | (Ok a, w') => f a w'
       | (Raise e, w') => (Raise e, w')
       end.

(** [try: body finally: final]: [final] runs after [body] however [body]
    ends; an exception of [final] replaces the outcome of [body]. *)
Definition try_finally {D A : Type} (body : io D A) (final : io D ())
  : io D A :=
  λ w, let '(r, w1) := body w in
       match final w1 with
       | (Ok _, w2) => (r, w2)
       | (Raise e, w2) => (Raise e, w2)
       end.

(** What the code uses of the operating system and of the standard
    library.  [isdir] tells whether a directory can be entered, [resolve c p]
    is the directory that the path [p] names for a process whose working
    directory is [c], and [oserror p] is the [OSError] for the path [p].  A
    child process is given the working directory of its parent and changes
    files only; so do [NamedTemporaryFile], which returns the name of the
    file, and the reading of the JSON file together with
    [BaseReader._clean]. *)
Record host (D A : Type) : Type := {
  isdir : D → string → bool;
  resolve : string → string → string;
  oserror : string → pyexn;
  sys_executable : string;
  package_root : string;
  NamedTemporaryFile : D → exn string * D;
  subprocess_run :
    list string → string → string → D → exn Cmd.CompletedProcess * D;
  load_and_clean : string → D → exn A * D
}.
Arguments isdir {D A} h.
Arguments resolve {D A} h.
Arguments oserror {D A} h.
Arguments sys_executable {D A} h.
Arguments package_root {D A} h.
Arguments NamedTemporaryFile {D A} h.
Arguments subprocess_run {D A} h.
Arguments load_and_clean {D A} h.

(** An operation on files only, as a computation: the working directory
    stays. *)
Definition on_disk {D B : Type} (f : D → exn B * D) : io D B :=
  λ w, let '(r, d) := f (disk w) in (r, {| cwd := cwd w; disk := d |}).

Section Host.
Context {D A : Type} (h : host D A).

(** [os.getcwd()], which fails when the working directory is gone *)
Definition getcwd : io D string :=
  λ w, if isdir h (disk w) (cwd w) then (Ok (cwd w), w)
       else (Raise (oserror h (cwd w)), w).

(** [os.chdir(path)] *)
Definition chdir (path : string) : io D () :=
  λ w, let target := resolve h (cwd w) path in
       if isdir h (disk w) target
       then (Ok (), {| cwd := target; disk := disk w |})
       else (Raise (oserror h path), w).

(** [with cd(path): body] (lines 18-25): the generator runs up to its
    [yield] on entry, and its [finally] clause when the body is left. *)
Definition cd {B : Type} (path : string) (body : io D B) : io D B :=
  io_bind getcwd (λ old_path,
  io_bind (chdir path) (λ _,
  try_finally body (chdir old_path))).

(** A reader, as far as [content] uses it: [str(self.path.parent)] and
    [self.path.name]. *)
Record CommandReader : Type := { path_parent : string; path_name : string }.

(** The command line of lines 33-40 *)
Definition cmd (self : CommandReader) (output_json : string) : list string :=
  [sys_executable h; path_name self; "-q";
   "--command-packages"; "dephell_setuptools";
   "distutils_cmd";
   "-o"; output_json].

(** [CommandReader.content] (lines 29-53); lines 48-53 are [Cmd.content],
    whose second argument is what remains to be done for a return code of
    zero. *)
Definition content (self : CommandReader) : io D A :=
  io_bind (on_disk (NamedTemporaryFile h)) (λ output_json,
  io_bind (cd (path_parent self)
             (λ w, on_disk (subprocess_run h (cmd self output_json)
                              (package_root h) (cwd w)) w))
          (λ result,
  match Cmd.content result (Ok (on_disk (load_and_clean h output_json))) with
  | Ok continue => continue
  | Raise e => λ w, (Raise e, w)
  end)).

End Host.

(** A host for examples: the disk is the list of the directories that
    exist, every path is absolute, and the child removes the directories
    listed in [removes], writes [err] to its error stream and exits with
    [code]. *)
Definition example_host_writing (err : list byte) (code : Z)
    (removes : list string) : host (list string) () :=
  {| isdir := λ d p, bool_decide (p ∈ d);
     resolve := λ _ p, p;
     oserror := OSError;
     sys_executable := "python3";
     package_root := "/site";
     NamedTemporaryFile := λ d, (Ok "/tmp/out", d);
     subprocess_run := λ _ _ _ d,
       (Ok {| Cmd.returncode := code; Cmd.stderr := err |},
        List.filter (λ p, negb (bool_decide (p ∈ removes))) d);
     load_and_clean := λ _ d, (Ok (), d) |}.

(** The same, with a child that writes [boom]. *)
Definition example_host (code : Z) (removes : list string)
  : host (list string) () :=
  example_host_writing (Cmd.bytes "boom") code removes.

(** The reader of [/src/setup.py] and a process in [/home]. *)
Definition example_reader : CommandReader :=
  {| path_parent := "/src"; path_name := "setup.py" |}.

Definition example_world : world (list string) :=
  {| cwd := "/home"; disk := ["/home"; "/src"] |}.

End Os.

(** ** [_cmd.py]: the distutils command *)

Module JSONCommand.

(** The Python values the command meets in the attributes of a distribution:
    [None], strings, lists, sets (with their elements in iteration order),
    dicts (with their items in insertion order) and other objects, which
    compare unequal to a string, to [None] and to a list. *)
Inductive pyobj : Type :=
| PNone
| PStr (s : string)
| PList (items : list pyobj)
| PSet (items : list pyobj)
| PDict (items : list (pyobj * pyobj))
| POther (repr : string).

(** [value in ('UNKNOWN', None, ['UNKNOWN'])] *)
Definition is_unknown (value : pyobj) : bool :=
  match value with
  | PStr s => bool_decide (s = "UNKNOWN")
  | PNone => true
  | PList [PStr s] => bool_decide (s = "UNKNOWN")
  | _ => false
  end.

(** Lines 77-79, on the items of the dict: [value[k] = list(v)] for every
    value [v] that is a set. *)
Definition lists_for_sets (items : list (pyobj * pyobj))
  : list (pyobj * pyobj) :=
  map (λ kv, (kv.1, match kv.2 with PSet xs => PList xs | v => v end)) items.

(** The value of an attribute after lines 76-79: the dict of
    [entry_points] is changed in place, anything else is left alone. *)
Definition prepared (key : string) (value : pyobj) : pyobj :=
  if bool_decide (key = "entry_points") then
    match value with
    | PDict items => PDict (lists_for_sets items)
    | _ => value
    end
  else value.

(** The distribution, as far as [run] uses it: the items of
    [vars(self.distribution)], the names of [dir(self.distribution)], and
    what calling the attribute of a given name returns or raises, given the
    attributes as they are at the time of the call. *)
Record Distribution : Type := {
  vars : list (string * pyobj);
  dir : list string;
  call_method : string → list (string * pyobj) → exn pyobj
}.

(** The first loop (lines 73-82): the data collected, and the attributes
    with the dict of [entry_points] as the loop leaves it. *)
Fixpoint attributes (FIELDS : gset string) (items : list (string * pyobj))
    (data : gmap string pyobj)
  : gmap string pyobj * list (string * pyobj) :=
  match items with
  | [] => (data, [])
  | (key, value) :: rest =>
      if bool_decide (key ∉ FIELDS) then
        let '(data', rest') := attributes FIELDS rest data in
        (data', (key, value) :: rest')
      else
        let value := prepared key value in
        if is_unknown value then
          let '(data', rest') := attributes FIELDS rest data in
          (data', (key, value) :: rest')
        else
          let '(data', rest') :=
            attributes FIELDS rest (<[key := value]> data) in
          (data', (key, value) :: rest')
  end.

(** [func_name[4:]] *)
Definition from_4 (func_name : string) : string :=
  String.substring 4 (String.length func_name - 4) func_name.

(** The second loop (lines 85-94) *)
Fixpoint methods (FIELDS : gset string) (dist : Distribution)
    (attrs : list (string * pyobj)) (names : list string)
    (data : gmap string pyobj) : exn (gmap string pyobj) :=
  match names with
  | [] => Ok data
  | func_name :: rest =>
      if negb (String.prefix "get_" func_name) then
        methods FIELDS dist attrs rest data
      else
        let name := from_4 func_name in
        if bool_decide (name ∉ FIELDS) then
          methods FIELDS dist attrs rest data
        else
          value ← call_method dist func_name attrs;
          if is_unknown value then methods FIELDS dist attrs rest data
          else methods FIELDS dist attrs rest (<[name := value]> data)
  end.

(** [run] (lines 69-94): the dict that lines 96-97 then write as JSON.
    [FIELDS] is the constant of [_constants.py]. *)
Definition run (FIELDS : gset string) (dist : Distribution)
  : exn (gmap string pyobj) :=
  let '(data, attrs) := attributes FIELDS (vars dist) ∅ in
  methods FIELDS dist attrs (dir dist) data.

(** Every entry of the data is a field with a value that is known. *)
Definition known (FIELDS : gset string) (data : gmap string pyobj) : Prop :=
  ∀ key value, data !! key = Some value →
               key ∈ FIELDS ∧ is_unknown value = false.

(** A distribution for examples: the name is set, the version is not, the
    entry points hold a set, and [get_version] knows the version. *)
Definition example_dist : Distribution :=
  {| vars := [("name", PStr "pkg");
              ("version", PStr "UNKNOWN");
              ("script_name", PStr "setup.py");
              ("entry_points",
               PDict [(PStr "console_scripts", PSet [PStr "a = b:c"])])];
     dir := ["entry_points"; "get_name"; "get_url"; "get_version"; "name";
             "script_name"; "version"];
     call_method := λ func_name _,
       if bool_decide (func_name = "get_version") then Ok (PStr "1.0")
       else Ok (PStr "UNKNOWN") |}.

Definition example_FIELDS : gset string :=
  {[ "name"; "version"; "url"; "entry_points" ]}.

End JSONCommand.

(** * Properties *)

Import Static.

(** ** The call locator *)

Lemma is_setup_call_spec (element : node) :
  is_setup_call element = true ↔
  ∃ args keywords, element = Call (Name "setup") args keywords.
Proof.
  split.
  - destruct element as [| | | |func args keywords| | | | | | |]; try discriminate.
    destruct func; try discriminate. simpl.
    intros ->%bool_decide_eq_true. eauto.
  - intros (args & keywords & ->). reflexivity.
Qed.

Lemma get_call_scan_cons (element : node) (rest : list node) :
  _get_call_scan (element :: rest) =
  if is_setup_call element then Some element else _get_call_scan rest.
Proof.
  destruct element as [| | | |func args keywords| | | | | | |]; try reflexivity.
  destruct func; try reflexivity. simpl.
  repeat case_bool_decide; done.
Qed.

Lemma get_call_scan_skip (before rest : list node) :
  Forall (λ e, is_setup_call e = false) before →
  _get_call_scan (before ++ rest) = _get_call_scan rest.
Proof.
  induction 1 as [|e before He _ IH]; [done|].
  rewrite <- app_comm_cons, get_call_scan_cons, He. exact IH.
Qed.

Lemma get_call_scan_split (flattened : list node) :
  (∃ before c after,
      flattened = before ++ c :: after ∧
      Forall (λ e, is_setup_call e = false) before ∧
      is_setup_call c = true ∧
      _get_call_scan flattened = Some c)
  ∨ (Forall (λ e, is_setup_call e = false) flattened ∧
     _get_call_scan flattened = None).
Proof.
  induction flattened as [|e rest IH].
  - right. by split.
  - rewrite get_call_scan_cons. destruct (is_setup_call e) eqn:He.
    + left. exists [], e, rest. by repeat split.
    + destruct IH as [(before & c & after & -> & Hb & Hc & Hr)|[Hall Hr]].
      * left. exists (e :: before), c, after.
        repeat split; [by constructor|done|done].
      * right. split; [by constructor|done].
Qed.

(** C4: [_get_call] scans the flattened body from its start and returns the
    first element that is a call whose callee is the bare name [setup]: the
    flattened body splits into elements that are no such call, the returned
    call, and a rest that is never looked at; when the flattened body holds
    no such call the result is [None]. *)
Theorem get_call_first_setup_call (elements : list node) :
  (∃ before c after,
      _get_body elements = before ++ c :: after ∧
      Forall (λ e, is_setup_call e = false) before ∧
      (∃ args keywords, c = Call (Name "setup") args keywords) ∧
      _get_call elements = Some c ∧
      ∀ after', _get_call_scan (before ++ c :: after') = Some c)
  ∨ (Forall (λ e, is_setup_call e = false) (_get_body elements) ∧
     _get_call elements = None).
Proof.
  unfold _get_call.
  destruct (get_call_scan_split (_get_body elements))
    as [(before & c & after & Heq & Hb & Hc & Hr)|[Hall Hr]].
  - left. exists before, c, after. repeat split; try done.
    + by apply is_setup_call_spec.
    + intros after'. rewrite get_call_scan_skip by done.
      by rewrite get_call_scan_cons, Hc.
  - right. by split.
Qed.

(** ** Keyword lookup on a call *)

Lemma find_in_call_scan_app (before after : list keyword) (name : string) :
  _find_in_call_scan (before ++ after) name =
  match _find_in_call_scan before name with
  | Some value => Some value
  | None => _find_in_call_scan after name
  end.
Proof.
  induction before as [|[arg value] before IH]; [done|].
  simpl. by case_bool_decide.
Qed.

Lemma find_call_kwargs_scan_app (before after : list keyword) :
  _find_call_kwargs_scan (before ++ after) =
  match _find_call_kwargs_scan before with
  | Some value => Some value
  | None => _find_call_kwargs_scan after
  end.
Proof.
  induction before as [|[[arg|] value] before IH]; done.
Qed.

Lemma find_call_kwargs_scan_named (keywords : list keyword) :
  Forall (λ k, keyword_arg k ≠ None) keywords →
  _find_call_kwargs_scan (rev keywords) = None.
Proof.
  induction 1 as [|[[arg|] value] keywords Hk _ IH]; [done| |done].
  simpl. by rewrite find_call_kwargs_scan_app, IH.
Qed.

Lemma find_call_kwargs_scan_last (before after : list keyword) (value : node) :
  Forall (λ k, keyword_arg k ≠ None) after →
  _find_call_kwargs_scan (rev (before ++ Keyword None value :: after)) =
  Some value.
Proof.
  intros Hafter.
  rewrite rev_app_distr. simpl. rewrite <- app_assoc.
  by rewrite find_call_kwargs_scan_app, find_call_kwargs_scan_named.
Qed.

Lemma find_in_call_scan_named (keywords : list keyword) (name : string) :
  _find_in_call_scan (List.filter named keywords) name =
  _find_in_call_scan keywords name.
Proof.
  induction keywords as [|[[arg|] value] keywords IH]; [done| |].
  - simpl. by rewrite IH.
  - exact IH.
Qed.

(** ** Variable lookup *)

Lemma find_variable_in_body_cons (elem : node) (rest : list node)
    (name : string) :
  _find_variable_in_body (elem :: rest) name =
  match elem with
  | Assign targets value =>
      if targets_bind targets name then Some value
      else _find_variable_in_body rest name
  | _ => _find_variable_in_body rest name
  end.
Proof. reflexivity. Qed.

(** [targets_bind] holds exactly when the bare name is among the targets. *)
Lemma targets_bind_spec (targets : list node) (name : string) :
  targets_bind targets name = true ↔ Name name ∈ targets.
Proof.
  induction targets as [|target targets IH].
  - split; [done|]. by intros ?%elem_of_nil.
  - rewrite elem_of_cons.
    destruct target as [| | | | |id| | | | | |]; simpl;
      try (rewrite IH; split; [by right|by intros [?|?]]).
    case_bool_decide as Hid.
    + subst. split; [by left|done].
    + rewrite IH. split; [by right|]. intros [[= ->]|?]; done.
Qed.

Lemma find_variable_in_body_skip (before rest : list node) (name : string) :
  Forall (λ e, binds name e = false) before →
  _find_variable_in_body (before ++ rest) name =
  _find_variable_in_body rest name.
Proof.
  induction 1 as [|e before He _ IH]; [done|].
  rewrite <- app_comm_cons, find_variable_in_body_cons.
  destruct e; try exact IH. simpl in He. by rewrite He.
Qed.

Lemma find_variable_in_body_first (before after targets : list node)
    (value : node) (name : string) :
  Forall (λ e, binds name e = false) before →
  Name name ∈ targets →
  _find_variable_in_body (before ++ Assign targets value :: after) name =
  Some value.
Proof.
  intros Hbefore Hin%targets_bind_spec.
  rewrite find_variable_in_body_skip by done. simpl. by rewrite Hin.
Qed.

(** ** Mapping-literal lookup *)

Lemma find_in_dict_scan_skip (before rest : list (option node * node))
    (name : string) :
  Forall (λ kv, kv.1 ≠ Some (Str name)) before →
  _find_in_dict_scan (before ++ rest) name = _find_in_dict_scan rest name.
Proof.
  induction 1 as [|[key val] before Hkv _ IH]; [done|].
  simpl in *. destruct key as [[]|]; try exact IH.
  case_bool_decide; [by subst|exact IH].
Qed.

Lemma find_in_dict_scan_none (items : list (option node * node))
    (name : string) :
  Forall (λ kv, kv.1 ≠ Some (Str name)) items →
  _find_in_dict_scan items name = None.
Proof.
  intros H. rewrite <- (app_nil_r items).
  by rewrite find_in_dict_scan_skip.
Qed.

(** ** What the resolvers read of a script *)

(** The resolvers read the located call through [_find_in_call] and
    [_find_call_kwargs] and the flattened body through
    [_find_variable_in_body] only: two readers that agree on the three agree
    on every field. *)
Section Congruence.
Variables s1 s2 : StaticReader.
Hypothesis Hin :
  ∀ name, _find_in_call (call s1) name = _find_in_call (call s2) name.
Hypothesis Hkw : _find_call_kwargs (call s1) = _find_call_kwargs (call s2).
Hypothesis Hvar :
  ∀ x, _find_variable_in_body (body s1) x =
       _find_variable_in_body (body s2) x.

Lemma single_string_of_congr (value : option node) :
  single_string_of s1 value = single_string_of s2 value.
Proof.
  destruct value as [[]|]; try reflexivity. simpl. by rewrite Hvar.
Qed.

Lemma install_requires_of_congr (value : option node) :
  install_requires_of s1 value = install_requires_of s2 value.
Proof.
  destruct value as [[]|]; try reflexivity. simpl. by rewrite Hvar.
Qed.

Lemma extras_loop_congr (items : list (option node * node)) (acc : extras) :
  extras_loop s1 items acc = extras_loop s2 items acc.
Proof.
  revert acc. induction items as [|[key val] items IH]; intros acc; [done|].
  simpl. destruct val; try apply IH.
  - rewrite Hvar.
    destruct (_find_variable_in_body (body s2) id) as [[]|]; try apply IH.
    destruct (mapM attr_s elts); [|done]. simpl.
    destruct (key_s key); [|done]. apply IH.
  - destruct (mapM attr_s elts); [|done]. simpl.
    destruct (key_s key); [|done]. apply IH.
Qed.

Lemma extras_require_of_congr (value : option node) :
  extras_require_of s1 value = extras_require_of s2 value.
Proof.
  destruct value as [[]|]; try reflexivity; simpl.
  - rewrite Hvar.
    destruct (_find_variable_in_body (body s2) id) as [[]|]; try done.
    apply extras_loop_congr.
  - apply extras_loop_congr.
Qed.

#[local] Arguments single_string_of : simpl never.
#[local] Arguments install_requires_of : simpl never.
#[local] Arguments extras_require_of : simpl never.

Ltac resolver_congr tail_congr :=
  rewrite Hin, Hkw;
  match goal with
  | |- context [_find_in_call (call s2) ?n] =>
      destruct (_find_in_call (call s2) n) as [[v|]|]
  end; simpl; [apply tail_congr| |done];
  destruct (_find_call_kwargs (call s2)) as [[[]|]|]; simpl; try done;
  rewrite Hvar;
  match goal with
  | |- context [_find_variable_in_body (body s2) ?k] =>
      destruct (_find_variable_in_body (body s2) k) as [[]|]
  end; try done;
  [ match goal with
    | |- context [Call ?f _ _] => destruct f; try done
    end;
    case_bool_decide; [done|];
    match goal with
    | |- context [_find_in_call ?c ?n] => destruct (_find_in_call c n)
    end; simpl; [apply tail_congr|done]
  | match goal with
    | |- context [_find_in_dict ?d ?n] => destruct (_find_in_dict d n)
    end; simpl; [apply tail_congr|done] ].

Lemma find_single_string_congr (name : string) :
  _find_single_string s1 name = _find_single_string s2 name.
Proof.
  unfold _find_single_string. resolver_congr single_string_of_congr.
Qed.

Lemma find_install_requires_congr :
  _find_install_requires s1 = _find_install_requires s2.
Proof.
  unfold _find_install_requires. resolver_congr install_requires_of_congr.
Qed.

Lemma find_extras_require_congr :
  _find_extras_require s1 = _find_extras_require s2.
Proof.
  unfold _find_extras_require. resolver_congr extras_require_of_congr.
Qed.

Lemma content_congr :
  (call s1 = None ↔ call s2 = None) → content s1 = content s2.
Proof.
  intros Hnone. unfold content.
  rewrite !find_single_string_congr, find_install_requires_congr,
    find_extras_require_congr.
  destruct (call s1) as [c1|], (call s2) as [c2|]; try done.
  - by destruct Hnone as [_ Hnone]; specialize (Hnone eq_refl).
  - by destruct Hnone as [Hnone _]; specialize (Hnone eq_refl).
Qed.
End Congruence.

(** ** The unpacked mapping of a call *)

(** C9: when the located call has several [**] arguments,
    [_find_call_kwargs] returns the last one in source order, and the
    earlier ones are ignored: removing them from the call changes no
    resolved field and not the result of [content]. *)
Theorem last_double_star_is_used (s1 s2 : StaticReader) (func : node)
    (args : list node) (before after : list keyword) (value : node) :
  call s1 = Some (Call func args (before ++ Keyword None value :: after)) →
  Forall (λ k, keyword_arg k ≠ None) after →
  call s2 = Some (Call func args
                    (List.filter named before ++ Keyword None value :: after)) →
  (∀ x, _find_variable_in_body (body s1) x =
        _find_variable_in_body (body s2) x) →
  _find_call_kwargs (call s1) = Ok (Some value) ∧ same_fields s1 s2.
Proof.
  intros Hc1 Hafter Hc2 Hvar.
  assert (Hin : ∀ name,
             _find_in_call (call s1) name = _find_in_call (call s2) name).
  { intros name. rewrite Hc1, Hc2. simpl. f_equal.
    rewrite !find_in_call_scan_app. by rewrite find_in_call_scan_named. }
  assert (Hkw1 : _find_call_kwargs (call s1) = Ok (Some value)).
  { rewrite Hc1. simpl. f_equal. by apply find_call_kwargs_scan_last. }
  assert (Hkw : _find_call_kwargs (call s1) = _find_call_kwargs (call s2)).
  { rewrite Hkw1, Hc2. simpl. f_equal. symmetry.
    by apply find_call_kwargs_scan_last. }
  split; [done|]. split; [|split; [|split]].
  - intros name. by apply find_single_string_congr.
  - by apply find_install_requires_congr.
  - by apply find_extras_require_congr.
  - apply content_congr; try done. by rewrite Hc1, Hc2.
Qed.

Lemma last_double_star_is_used_witness :
  _find_call_kwargs (call Scripts.two_unpacked) = Ok (Some (Name "b")) ∧
  content Scripts.two_unpacked = content Scripts.one_unpacked.
Proof.
  destruct (last_double_star_is_used Scripts.two_unpacked Scripts.one_unpacked
              (Name "setup") [] [Keyword None (Name "a")] [] (Name "b"))
    as (Hkw & _ & _ & _ & Hcontent).
  - reflexivity.
  - constructor.
  - reflexivity.
  - intros x. reflexivity.
  - split; [exact Hkw|exact Hcontent].
Defined.

(** The same scripts, run: the mapping of [**a] is not consulted, so
    [name] is not found, while [version] comes from [**b]. *)
Example two_unpacked_fields :
  _find_single_string Scripts.two_unpacked "name" = Ok None ∧
  _find_single_string Scripts.two_unpacked "version" = Ok (Some "1").
Proof. by split. Qed.

(** ** Lookup in a mapping literal *)

(** C10: [_find_in_dict] returns the value of the first entry whose key is
    the string literal [name], whatever keys stand before it; it returns
    [None] when no entry has that key; and an entry whose key is not a
    string literal is passed over for every [name]. *)
Theorem find_in_dict_first_literal_key (keys : list (option node))
    (values : list node) (name : string) :
  (∀ before val after,
      zip keys values = before ++ (Some (Str name), val) :: after →
      Forall (λ kv, kv.1 ≠ Some (Str name)) before →
      _find_in_dict (Some (Dict keys values)) name = Ok (Some val)) ∧
  (Forall (λ kv, kv.1 ≠ Some (Str name)) (zip keys values) →
   _find_in_dict (Some (Dict keys values)) name = Ok None) ∧
  (∀ key val rest,
      (∀ s, key ≠ Some (Str s)) →
      _find_in_dict_scan ((key, val) :: rest) name =
      _find_in_dict_scan rest name).
Proof.
  split; [|split].
  - intros before val after Hzip Hbefore. simpl. rewrite Hzip.
    rewrite find_in_dict_scan_skip by done. simpl.
    by rewrite bool_decide_eq_true_2.
  - intros Hall. simpl. by rewrite find_in_dict_scan_none.
  - intros key val rest Hkey. simpl.
    destruct key as [[]|]; try done. by destruct (Hkey s).
Qed.

Lemma find_in_dict_first_literal_key_witness :
  _find_in_dict
    (Some (Dict [Some (Name "name"); None; Some (Str "name"); Some (Str "name")]
                [Str "a"; Name "more"; Str "b"; Str "c"])) "name"
  = Ok (Some (Str "b")) ∧
  _find_in_dict (Some (Dict [Some (Name "name"); None] [Str "a"; Name "more"]))
    "name" = Ok None.
Proof.
  split.
  - apply (proj1 (find_in_dict_first_literal_key _ _ "name")
             [(Some (Name "name"), Str "a"); (None, Name "more")]
             (Str "b") [(Some (Str "name"), Str "c")]).
    + reflexivity.
    + repeat constructor; simpl; congruence.
  - apply (proj1 (proj2 (find_in_dict_first_literal_key _ _ "name"))).
    repeat constructor; simpl; congruence.
Defined.

(** ** The first assignment wins *)

(** Statements that do not assign to the bare name are passed over. *)
Lemma not_assigned_not_bound (name : string) (before : list node) :
  (∀ targets value, Assign targets value ∈ before → Name name ∉ targets) →
  Forall (λ e, binds name e = false) before.
Proof.
  intros H. apply Forall_forall. intros e He. destruct e; try done. simpl.
  apply not_true_is_false. intros Hb%targets_bind_spec. by eapply H.
Qed.

(** C5: [_find_variable_in_body] matches the bare name exactly and returns
    the value of the first assignment to it in the flattened body: the
    assignments in front of it, none of which has the bare name among its
    targets, are passed over whatever names they assign to, and what follows
    it is not looked at; a name that no assignment has among its targets is
    not found; a field whose keyword on the located call is the name
    resolves through it; and the script [version = "2.0"] followed by
    [setup(version=version)] resolves [version] to ["2.0"], while with
    [version = "1.0"] put in front it resolves to ["1.0"]. *)
Theorem first_assignment_wins (self : StaticReader) (x : string)
    (before after targets : list node) (value : node) :
  body self = before ++ Assign targets value :: after →
  (∀ ts v, Assign ts v ∈ before → Name x ∉ ts) →
  Name x ∈ targets →
  _find_variable_in_body (body self) x = Some value ∧
  (∀ after', _find_variable_in_body (before ++ Assign targets value :: after') x
             = Some value) ∧
  (∀ y, (∀ ts v, Assign ts v ∈ body self → Name y ∉ ts) →
        _find_variable_in_body (body self) y = None) ∧
  (∀ field,
      _find_in_call (call self) field = Ok (Some (Name x)) →
      _find_single_string self field =
      Ok (match value with Str s => Some s | _ => None end)) ∧
  _find_single_string Scripts.version_alias "version" = Ok (Some "2.0") ∧
  _find_single_string Scripts.reassigned "version" = Ok (Some "1.0").
Proof.
  intros Hbody Hbefore%not_assigned_not_bound Hin.
  assert (Hvar : _find_variable_in_body (body self) x = Some value).
  { rewrite Hbody. by apply find_variable_in_body_first. }
  split; [done|]. split; [|split; [|split; [|by split]]].
  - intros after'. by apply find_variable_in_body_first.
  - intros y Hy%not_assigned_not_bound.
    rewrite <- (app_nil_r (body self)).
    by rewrite find_variable_in_body_skip.
  - intros field Hfield. unfold _find_single_string. rewrite Hfield. simpl.
    rewrite Hvar. by destruct value.
Qed.

Lemma first_assignment_wins_witness :
  _find_variable_in_body (body Scripts.other_names_first) "version" =
  Some (Str "1.0") ∧
  _find_single_string Scripts.other_names_first "version" = Ok (Some "1.0").
Proof.
  destruct (first_assignment_wins Scripts.other_names_first "version"
              [Assign [Name "name"] (Str "pkg");
               Assign [Name "Version"] (Str "0")]
              [Assign [Name "version"] (Str "2.0");
               Call (Name "setup") []
                 [Keyword (Some "version") (Name "version")]]
              [Name "version"] (Str "1.0")) as (Hvar & _ & _ & Hfield & _).
  - reflexivity.
  - intros ts v Hin Hx.
    repeat (apply elem_of_cons in Hin as [Hin|Hin];
            [injection Hin as -> ->;
             apply elem_of_cons in Hx as [Hx|Hx];
             [discriminate Hx|by apply elem_of_nil in Hx]|]).
    by apply elem_of_nil in Hin.
  - constructor.
  - split; [exact Hvar|]. apply (Hfield "version"). reflexivity.
Defined.

(** ** Resolution through the unpacked mapping *)

(** C3: when the located call has no keyword for a field and its [**]
    argument is a bare name, the field is resolved through the value bound to
    that name: for a call of [dict] the field is looked up among the
    keywords of that call, for a mapping literal among its entries, and for
    anything else (or no binding at all) the field is [None], the empty list
    or the empty dict.  The script of [Scripts.dict_kwargs] resolves
    [install_requires] to ["a", "b"]. *)
Theorem unpacked_name_resolution (self : StaticReader) (k : string) :
  _find_call_kwargs (call self) = Ok (Some (Name k)) →
  (∀ field,
      _find_in_call (call self) field = Ok None →
      _find_single_string self field =
      match _find_variable_in_body (body self) k with
      | Some (Dict keys values) =>
          single_string_of self (_find_in_dict_scan (zip keys values) field)
      | Some (Call (Name fid) _ keywords) =>
          if bool_decide (fid = "dict")
          then single_string_of self (_find_in_call_scan keywords field)
          else Ok None
      | _ => Ok None
      end) ∧
  (_find_in_call (call self) "install_requires" = Ok None →
   _find_install_requires self =
   match _find_variable_in_body (body self) k with
   | Some (Dict keys values) =>
       install_requires_of self
         (_find_in_dict_scan (zip keys values) "install_requires")
   | Some (Call (Name fid) _ keywords) =>
       if bool_decide (fid = "dict")
       then install_requires_of self
              (_find_in_call_scan keywords "install_requires")
       else Ok []
   | _ => Ok []
   end) ∧
  (_find_in_call (call self) "extras_require" = Ok None →
   _find_extras_require self =
   match _find_variable_in_body (body self) k with
   | Some (Dict keys values) =>
       extras_require_of self
         (_find_in_dict_scan (zip keys values) "extras_require")
   | Some (Call (Name fid) _ keywords) =>
       if bool_decide (fid = "dict")
       then extras_require_of self
              (_find_in_call_scan keywords "extras_require")
       else Ok ∅
   | _ => Ok ∅
   end) ∧
  _find_install_requires Scripts.dict_kwargs = Ok [VStr "a"; VStr "b"].
Proof.
  intros Hkw. repeat split.
  - intros field Hfield. unfold _find_single_string.
    rewrite Hfield, Hkw. simpl.
    destruct (_find_variable_in_body (body self) k) as [[]|]; try done.
    destruct func; try done. by repeat case_bool_decide.
  - intros Hfield. unfold _find_install_requires.
    rewrite Hfield, Hkw. simpl.
    destruct (_find_variable_in_body (body self) k) as [[]|]; try done.
    destruct func; try done. by repeat case_bool_decide.
  - intros Hfield. unfold _find_extras_require.
    rewrite Hfield, Hkw. simpl.
    destruct (_find_variable_in_body (body self) k) as [[]|]; try done.
    destruct func; try done. by repeat case_bool_decide.
Qed.

Lemma unpacked_name_resolution_witness :
  _find_install_requires Scripts.dict_kwargs = Ok [VStr "a"; VStr "b"] ∧
  _find_single_string Scripts.number_kwargs "name" = Ok None ∧
  _find_install_requires Scripts.number_kwargs = Ok [] ∧
  _find_extras_require Scripts.number_kwargs = Ok ∅.
Proof.
  destruct (unpacked_name_resolution Scripts.dict_kwargs "kwargs" eq_refl)
    as (_ & Hlist & _ & _).
  destruct (unpacked_name_resolution Scripts.number_kwargs "kwargs" eq_refl)
    as (Hstring & Hlist' & Hdict & _).
  split; [exact (Hlist eq_refl)|].
  split; [exact (Hstring "name" eq_refl)|].
  split; [exact (Hlist' eq_refl)|exact (Hdict eq_refl)].
Defined.

(** ** Where the resolvers raise *)

Lemma get_call_is_Call (elements : list node) (c : node) :
  _get_call elements = Some c →
  ∃ args keywords, c = Call (Name "setup") args keywords.
Proof.
  unfold _get_call. intros Hc.
  destruct (get_call_scan_split (_get_body elements))
    as [(before & c' & after & _ & _ & Hc' & Hr)|[_ Hr]];
    rewrite Hr in Hc; [|done].
  injection Hc as <-. by apply is_setup_call_spec.
Qed.

(** Once a call is located, a single-string field never raises. *)
Lemma find_single_string_returns (self : StaticReader) (c : node)
    (field : string) :
  call self = Some c → ∃ r, _find_single_string self field = Ok r.
Proof.
  intros Hc. destruct (get_call_is_Call _ _ Hc) as (args & keywords & ->).
  unfold _find_single_string. rewrite Hc. simpl.
  assert (Htail : ∀ value, ∃ r, single_string_of self value = Ok r).
  { intros [[]|]; simpl; eauto.
    destruct (_find_variable_in_body (body self) id) as [[]|]; eauto. }
  destruct (_find_in_call_scan keywords field); [apply Htail|].
  destruct (_find_call_kwargs_scan (rev keywords)) as [[]|]; eauto.
  destruct (_find_variable_in_body (body self) id) as [[]|]; simpl; eauto.
  destruct func; eauto. case_bool_decide; eauto.
Qed.

(** One element without an attribute [s] is enough for the loop over a list
    to raise. *)
Lemma mapM_attr_s_raises (elts : list node) (x : node) :
  x ∈ elts → attr_s x = Raise AttributeError →
  mapM attr_s elts = Raise AttributeError.
Proof.
  intros Hin Hx. induction Hin as [x elts|x y elts Hin IH]; simpl.
  - by rewrite Hx.
  - destruct (attr_s y) as [v|e] eqn:Hy; simpl.
    + by rewrite IH.
    + destruct y; simpl in Hy; congruence.
Qed.

Lemma find_install_requires_raises (self : StaticReader) (elts : list node)
    (x : node) :
  _find_in_call (call self) "install_requires" = Ok (Some (List elts)) →
  x ∈ elts → attr_s x = Raise AttributeError →
  _find_install_requires self = Raise AttributeError.
Proof.
  intros Hvalue Hin Hx. unfold _find_install_requires. rewrite Hvalue.
  simpl. by apply (mapM_attr_s_raises _ x).
Qed.

(** C2: the list and mapping resolvers do raise.  The script
    [setup(install_requires=[foo])] makes [_find_install_requires] read
    [el.s] on a [Name] node, and [setup(extras_require={foo: ["x"]})] makes
    [_find_extras_require] read [key.s] on one: both raise [AttributeError]
    instead of returning an empty collection. *)
Theorem collection_resolvers_raise :
  call Scripts.name_element ≠ None ∧
  _find_install_requires Scripts.name_element = Raise AttributeError ∧
  call Scripts.name_key ≠ None ∧
  _find_extras_require Scripts.name_key = Raise AttributeError.
Proof. by repeat split. Qed.

(** ** The assembled result *)

(** C1: with a located call, [content] does not always return a dict.  The
    script [setup(install_requires=[foo])] has a located call, and [content]
    returns neither [None] nor a dict: the [AttributeError] of
    [_find_install_requires] passes through it. *)
Theorem content_raises_with_call :
  call Scripts.name_element ≠ None ∧
  content Scripts.name_element = Raise AttributeError ∧
  ¬ (∀ self, call self ≠ None → ∃ m, content self = Ok (Some m)).
Proof.
  split; [done|]. split; [done|].
  intros H. by destruct (H Scripts.name_element) as [m Hm].
Qed.

(** Apart from that, the result is assembled as specified: [content]
    returns [None] exactly when no call is located; with a located call,
    whenever the five resolvers return, [content] returns a dict with
    exactly the keys [name], [version], [python_requires],
    [install_requires] and [extras_require], each holding what its own
    resolver returned. *)
Lemma content_assembles (self : StaticReader) (name version
    python_requires : option string) (install_requires : list pyval)
    (extras_require : extras) :
  (content self = Ok None ↔ call self = None) ∧
  (call self ≠ None →
   _find_single_string self "name" = Ok name →
   _find_single_string self "version" = Ok version →
   _find_single_string self "python_requires" = Ok python_requires →
   _find_install_requires self = Ok install_requires →
   _find_extras_require self = Ok extras_require →
   ∃ m : gmap string field_value,
     content self = Ok (Some m) ∧
     dom m = {[ "name"; "version"; "python_requires"; "install_requires";
                "extras_require" ]} ∧
     m !! "name" = Some (FString name) ∧
     m !! "version" = Some (FString version) ∧
     m !! "python_requires" = Some (FString python_requires) ∧
     m !! "install_requires" = Some (FList install_requires) ∧
     m !! "extras_require" = Some (FDict extras_require)).
Proof.
  split.
  - unfold content. destruct (call self) as [c|]; [|done].
    split; [|done].
    destruct (_find_single_string self "name"); [|done].
    destruct (_find_single_string self "version"); [|done].
    destruct (_find_single_string self "python_requires"); [|done].
    destruct (_find_install_requires self); [|done].
    by destruct (_find_extras_require self).
  - intros Hcall Hn Hv Hp Hi He. unfold content.
    destruct (call self) as [c|]; [|done].
    rewrite Hn, Hv, Hp, Hi, He. simpl.
    eexists. split; [reflexivity|].
    split; [rewrite !dom_insert_L, dom_empty_L; set_solver|].
    repeat split; by vm_compute.
Qed.

Example content_assembles_plain :
  (content Scripts.no_call = Ok None ↔ call Scripts.no_call = None) ∧
  ∃ m : gmap string field_value,
    content Scripts.plain = Ok (Some m) ∧
    dom m = {[ "name"; "version"; "python_requires"; "install_requires";
               "extras_require" ]} ∧
    m !! "name" = Some (FString (Some "x")) ∧
    m !! "install_requires" = Some (FList []).
Proof.
  split.
  - exact (proj1 (content_assembles Scripts.no_call None None None [] ∅)).
  - destruct (proj2 (content_assembles Scripts.plain
                       (Some "x") (Some "1.0") None [] ∅))
      as (m & Hm & Hdom & Hname & _ & _ & Hinstall & _);
      [done|reflexivity..|].
    exists m. by repeat split.
Qed.

(** ** The flattener *)

Lemma get_body_cons (element : node) (rest : list node) :
  _get_body (element :: rest) =
  match element with
  | FunctionDef _ body => _get_body body ++ _get_body rest
  | If _ body _ => _get_body body ++ element :: _get_body rest
  | Expr value => value :: _get_body rest
  | _ => element :: _get_body rest
  end.
Proof.
  destruct element; try reflexivity.
  unfold _get_body. simpl. by rewrite <- app_assoc.
Qed.

(** The code and the specification's flattener agree up to the [If] nodes
    that the code yields after the statements of their bodies. *)
Lemma get_body_element_but_for_If (element : node) :
  List.filter (λ e, negb (is_If e)) (_get_body_element element) =
  List.filter (λ e, negb (is_If e)) (Spec.flatten_element element).
Proof.
  revert element. fix IH 1.
  intros [name body|test body orelse| | | | | | | | | |]; simpl; try reflexivity.
  - induction body as [|x body IHbody]; simpl; [done|].
    by rewrite !List.filter_app, IH, IHbody.
  - rewrite List.filter_app. simpl. rewrite app_nil_r.
    induction body as [|x body IHbody]; simpl; [done|].
    by rewrite !List.filter_app, IH, IHbody.
Qed.

Lemma get_body_but_for_If (elements : list node) :
  List.filter (λ e, negb (is_If e)) (_get_body elements) =
  List.filter (λ e, negb (is_If e)) (Spec.flatten elements).
Proof.
  unfold _get_body, Spec.flatten.
  induction elements as [|x elements IH]; simpl; [done|].
  by rewrite !List.filter_app, get_body_element_but_for_If, IH.
Qed.

(** C6: the flattener does not produce the sequence the specification
    describes.  For [if x: a = "1"] it yields the assignment of the body and
    then the [If] statement itself, where the specification has the
    assignment alone. *)
Theorem get_body_keeps_the_if_statement :
  _get_body Scripts.guarded =
    [Assign [Name "a"] (Str "1");
     If (Name "x") [Assign [Name "a"] (Str "1")] []] ∧
  Spec.flatten Scripts.guarded = [Assign [Name "a"] (Str "1")] ∧
  _get_body Scripts.guarded ≠ Spec.flatten Scripts.guarded.
Proof. by repeat split. Qed.

(** ** Reordering statements *)

(** [_find_variable_in_body] returns the value of the first-occurrence
    assignment. *)
Lemma find_variable_in_body_first_assignment (flattened : list node)
    (name : string) :
  _find_variable_in_body flattened name =
  match Spec.first_assignment flattened name with
  | Some (Assign _ value) => Some value
  | _ => None
  end.
Proof.
  induction flattened as [|elem rest IH]; [done|].
  destruct elem; try exact IH. simpl. by destruct (targets_bind targets name).
Qed.

Lemma get_call_scan_filter (flattened : list node) :
  _get_call_scan flattened = head (List.filter is_setup_call flattened).
Proof.
  induction flattened as [|elem rest IH]; [done|].
  rewrite get_call_scan_cons. simpl. by destruct (is_setup_call elem).
Qed.

Lemma first_assignment_filter (flattened : list node) (name : string) :
  Spec.first_assignment flattened name =
  head (List.filter (binds name) flattened).
Proof.
  induction flattened as [|elem rest IH]; [done|].
  destruct elem; try exact IH. simpl. by destruct (targets_bind targets name).
Qed.

Lemma filter_filter_implied {A} (P Q : A → bool) (l : list A) :
  (∀ x, P x = true → Q x = true) →
  List.filter P (List.filter Q l) = List.filter P l.
Proof.
  intros HPQ. induction l as [|x l IH]; [done|]. simpl.
  destruct (Q x) eqn:HQ; simpl.
  - by rewrite IH.
  - destruct (P x) eqn:HP; [|done]. apply HPQ in HP. congruence.
Qed.

(** Statements that are neither calls of [setup] nor assignments can be
    moved, added or removed: the located call and every first-occurrence
    assignment stay what they are. *)
Lemma same_calls_and_assignments (s1 s2 : StaticReader) :
  List.filter (λ e, is_setup_call e || is_Assign e) (body s1) =
  List.filter (λ e, is_setup_call e || is_Assign e) (body s2) →
  call s1 = call s2 ∧
  ∀ x, Spec.first_assignment (body s1) x = Spec.first_assignment (body s2) x.
Proof.
  intros Hfilter. split.
  - unfold call, _get_call. fold (body s1) (body s2).
    rewrite !get_call_scan_filter.
    rewrite <- (filter_filter_implied is_setup_call
                  (λ e, is_setup_call e || is_Assign e) (body s1)),
            <- (filter_filter_implied is_setup_call
                  (λ e, is_setup_call e || is_Assign e) (body s2)).
    + by rewrite Hfilter.
    + by intros x ->.
    + by intros x ->.
  - intros x. rewrite !first_assignment_filter.
    rewrite <- (filter_filter_implied (binds x)
                  (λ e, is_setup_call e || is_Assign e) (body s1)),
            <- (filter_filter_implied (binds x)
                  (λ e, is_setup_call e || is_Assign e) (body s2)).
    + by rewrite Hfilter.
    + by intros [].
    + by intros [].
Qed.

(** The claim C7 as it is stated fails.  In the script [version = "1.0";
    version = "2.0"; setup(version=version)] the second assignment is neither
    the located call nor the first-occurrence assignment of any name; moving
    it in front of the first one changes [version] from ["1.0"] to
    ["2.0"]. *)
Lemma moving_a_later_assignment_changes_a_field :
  let first := Assign [Name "version"] (Str "1.0") in
  let later := Assign [Name "version"] (Str "2.0") in
  let located :=
    Call (Name "setup") [] [Keyword (Some "version") (Name "version")] in
  body Scripts.reassigned = [first] ++ later :: [located] ∧
  body Scripts.reassigned_moved = later :: [first] ++ [located] ∧
  call Scripts.reassigned = Some located ∧
  Spec.unrelated Scripts.reassigned later ∧
  _find_single_string Scripts.reassigned "version" = Ok (Some "1.0") ∧
  _find_single_string Scripts.reassigned_moved "version" = Ok (Some "2.0").
Proof.
  repeat split; try done.
  intros name. simpl. case_bool_decide; done.
Qed.

Lemma same_first_same_fields (s1 s2 : StaticReader) :
  call s1 = call s2 →
  (∀ x, Spec.first_assignment (body s1) x =
        Spec.first_assignment (body s2) x) →
  same_fields s1 s2.
Proof.
  intros Hcall Hfirst.
  assert (Hvar : ∀ x, _find_variable_in_body (body s1) x =
                      _find_variable_in_body (body s2) x).
  { intros x. by rewrite !find_variable_in_body_first_assignment, Hfirst. }
  assert (Hin : ∀ name,
             _find_in_call (call s1) name = _find_in_call (call s2) name)
    by (by rewrite Hcall).
  assert (Hkw : _find_call_kwargs (call s1) = _find_call_kwargs (call s2))
    by (by rewrite Hcall).
  split; [|split; [|split]].
  - intros field. by apply find_single_string_congr.
  - by apply find_install_requires_congr.
  - by apply find_extras_require_congr.
  - apply content_congr; try done. by rewrite Hcall.
Qed.

Lemma get_call_scan_app (front rest : list node) :
  _get_call_scan (front ++ rest) =
  match _get_call_scan front with
  | Some c => Some c
  | None => _get_call_scan rest
  end.
Proof.
  induction front as [|e front IH]; [done|].
  rewrite <- app_comm_cons, !get_call_scan_cons.
  by destruct (is_setup_call e).
Qed.

Lemma first_assignment_app (front rest : list node) (name : string) :
  Spec.first_assignment (front ++ rest) name =
  match Spec.first_assignment front name with
  | Some elem => Some elem
  | None => Spec.first_assignment rest name
  end.
Proof.
  induction front as [|e front IH]; [done|].
  destruct e; try exact IH. simpl. by destruct (targets_bind targets name).
Qed.

(** *** What the resolvers look up *)

Lemma find_single_string_resolve (self : StaticReader) (field : string) :
  _find_single_string self field =
  resolve self field None (single_string_of self).
Proof. reflexivity. Qed.

Lemma find_install_requires_resolve (self : StaticReader) :
  _find_install_requires self =
  resolve self "install_requires" [] (install_requires_of self).
Proof. reflexivity. Qed.

Lemma find_extras_require_resolve (self : StaticReader) :
  _find_extras_require self =
  resolve self "extras_require" ∅ (extras_require_of self).
Proof. reflexivity. Qed.

(** Two readers with the same located call that agree on the names a
    resolver looks up agree on what the resolver returns. *)
Section LookedUp.
Variables s1 s2 : StaticReader.
Hypothesis Hcall : call s1 = call s2.

Lemma single_string_of_looked_up (value : option node) :
  (∀ x, x ∈ name_of value →
        _find_variable_in_body (body s1) x =
        _find_variable_in_body (body s2) x) →
  single_string_of s1 value = single_string_of s2 value.
Proof.
  intros H. destruct value as [[]|]; try reflexivity. simpl.
  rewrite (H id); [done|by left].
Qed.

Lemma install_requires_of_looked_up (value : option node) :
  (∀ x, x ∈ name_of value →
        _find_variable_in_body (body s1) x =
        _find_variable_in_body (body s2) x) →
  install_requires_of s1 value = install_requires_of s2 value.
Proof.
  intros H. destruct value as [[]|]; try reflexivity. simpl.
  rewrite (H id); [done|by left].
Qed.

Lemma extras_loop_looked_up (items : list (option node * node))
    (acc : extras) :
  (∀ x, x ∈ extras_loop_lookups s1 items →
        _find_variable_in_body (body s1) x =
        _find_variable_in_body (body s2) x) →
  extras_loop s1 items acc = extras_loop s2 items acc.
Proof.
  revert acc. induction items as [|[key val] items IH]; intros acc H; [done|].
  assert (Hstep : ∀ (val1 : option node) names,
    (∀ x, x ∈ match val1 with
              | Some (List elts) =>
                  match l ← mapM attr_s elts; key_s key with
                  | Ok _ => names ++ extras_loop_lookups s1 items
                  | Raise _ => names
                  end
              | _ => names ++ extras_loop_lookups s1 items
              end →
          _find_variable_in_body (body s1) x =
          _find_variable_in_body (body s2) x) →
    match val1 with
    | Some (List elts) =>
        l ← mapM attr_s elts; k ← key_s key;
        extras_loop s1 items (<[k := l]> acc)
    | _ => extras_loop s1 items acc
    end =
    match val1 with
    | Some (List elts) =>
        l ← mapM attr_s elts; k ← key_s key;
        extras_loop s2 items (<[k := l]> acc)
    | _ => extras_loop s2 items acc
    end).
  { intros val1 names Hnames.
    assert (Hrest : ∀ acc',
      (∀ x, x ∈ names ++ extras_loop_lookups s1 items →
            _find_variable_in_body (body s1) x =
            _find_variable_in_body (body s2) x) →
      extras_loop s1 items acc' = extras_loop s2 items acc').
    { intros acc' Hx. apply IH. intros x Hin. apply Hx.
      apply elem_of_app. by right. }
    destruct val1 as [[]|]; try by apply Hrest.
    destruct (mapM attr_s elts) as [l|]; simpl in *; [|done].
    destruct (key_s key) as [k|]; simpl in *; [|done].
    by apply Hrest. }
  destruct val; try (simpl in *; by apply IH).
  - simpl in H.
    assert (Hid : _find_variable_in_body (body s1) id =
                  _find_variable_in_body (body s2) id).
    { apply H.
      destruct (_find_variable_in_body (body s1) id) as [[]|]; try by left.
      destruct (_ ← mapM attr_s elts; key_s key); by left. }
    simpl. rewrite <- Hid.
    exact (Hstep (_find_variable_in_body (body s1) id) [id] H).
  - exact (Hstep (Some (List elts)) [] H).
Qed.

Lemma extras_require_of_looked_up (value : option node) :
  (∀ x, x ∈ extras_require_lookups_of s1 value →
        _find_variable_in_body (body s1) x =
        _find_variable_in_body (body s2) x) →
  extras_require_of s1 value = extras_require_of s2 value.
Proof.
  intros H. destruct value as [[]|]; try reflexivity; simpl in *.
  - rewrite <- (H id) by (by left).
    destruct (_find_variable_in_body (body s1) id) as [[]|]; try done.
    apply extras_loop_looked_up. intros x Hx. apply H. by right.
  - by apply extras_loop_looked_up.
Qed.

Lemma resolve_looked_up {R : Type} (field : string) (default : R)
    (tail1 tail2 : option node → exn R)
    (tail_names : option node → list string) :
  (∀ value,
      (∀ x, x ∈ tail_names value →
            _find_variable_in_body (body s1) x =
            _find_variable_in_body (body s2) x) →
      tail1 value = tail2 value) →
  (∀ x, x ∈ lookups s1 field tail_names →
        _find_variable_in_body (body s1) x =
        _find_variable_in_body (body s2) x) →
  resolve s1 field default tail1 = resolve s2 field default tail2.
Proof.
  intros Htail. unfold resolve, lookups. rewrite <- Hcall.
  destruct (_find_in_call (call s1) field) as [[v|]|]; simpl; [by apply Htail| |done].
  destruct (_find_call_kwargs (call s1)) as [[[]|]|]; simpl; try done.
  intros H. rewrite <- (H id) by (by left).
  assert (H' : ∀ x,
    x ∈ match _find_variable_in_body (body s1) id with
        | Some (Call (Name fid) _ keywords) =>
            if bool_decide (fid ≠ "dict") then []
            else tail_names (_find_in_call_scan keywords field)
        | Some (Dict keys values) =>
            tail_names (_find_in_dict_scan (zip keys values) field)
        | _ => []
        end →
    _find_variable_in_body (body s1) x = _find_variable_in_body (body s2) x).
  { intros x Hx. apply H. by right. }
  clear H.
  destruct (_find_variable_in_body (body s1) id) as [[]|]; simpl; try done.
  - destruct func; try done. case_bool_decide; [done|]. by apply Htail.
  - by apply Htail.
Qed.

Lemma find_single_string_looked_up (field : string) :
  (∀ x, x ∈ single_string_lookups s1 field →
        _find_variable_in_body (body s1) x =
        _find_variable_in_body (body s2) x) →
  _find_single_string s1 field = _find_single_string s2 field.
Proof.
  rewrite !find_single_string_resolve. apply resolve_looked_up.
  apply single_string_of_looked_up.
Qed.

Lemma find_install_requires_looked_up :
  (∀ x, x ∈ install_requires_lookups s1 →
        _find_variable_in_body (body s1) x =
        _find_variable_in_body (body s2) x) →
  _find_install_requires s1 = _find_install_requires s2.
Proof.
  rewrite !find_install_requires_resolve. apply resolve_looked_up.
  apply install_requires_of_looked_up.
Qed.

Lemma find_extras_require_looked_up :
  (∀ x, x ∈ extras_require_lookups s1 →
        _find_variable_in_body (body s1) x =
        _find_variable_in_body (body s2) x) →
  _find_extras_require s1 = _find_extras_require s2.
Proof.
  rewrite !find_extras_require_resolve. apply resolve_looked_up.
  apply extras_require_of_looked_up.
Qed.

Lemma content_looked_up :
  (∀ x, x ∈ consulted s1 →
        _find_variable_in_body (body s1) x =
        _find_variable_in_body (body s2) x) →
  content s1 = content s2.
Proof.
  intros H. unfold content.
  pose proof (find_single_string_looked_up "name") as Hn.
  pose proof (find_single_string_looked_up "version") as Hv.
  pose proof (find_single_string_looked_up "python_requires") as Hp.
  pose proof find_install_requires_looked_up as Hi.
  pose proof find_extras_require_looked_up as He.
  unfold consulted in H. rewrite <- Hcall.
  destruct (call s1) as [c|]; [|done].
  rewrite <- Hn, <- Hv, <- Hp, <- Hi.
  - destruct (_find_single_string s1 "name"); [|done].
    destruct (_find_single_string s1 "version"); [|done].
    destruct (_find_single_string s1 "python_requires"); [|done]. simpl.
    destruct (_find_install_requires s1); [|done]. simpl.
    rewrite <- He; [done|].
    intros x Hx. apply H. rewrite !elem_of_app. by repeat right.
  - intros x Hx. apply H. rewrite !elem_of_app. by do 3 right; left.
  - intros x Hx. apply H. rewrite !elem_of_app. by do 2 right; left.
  - intros x Hx. apply H. rewrite !elem_of_app. by right; left.
  - intros x Hx. apply H. rewrite !elem_of_app. by left.
Qed.
End LookedUp.

(** C7, amended: two scripts with the same located call resolve a field to
    the same value when every name that the resolution of the field looks
    up has the same first-occurrence assignment in both, and have the same
    [content] when this holds of every name that [content] looks up;
    statements that are neither calls of [setup] nor assignments to such a
    name can be moved, added or removed.  And of two calls of [setup] only
    the earlier one is consulted: replacing the later one by any other call
    of [setup] changes no field. *)
Theorem same_first_occurrences_same_fields (s1 s2 : StaticReader) :
  (call s1 = call s2 →
   (∀ field,
       (∀ x, x ∈ single_string_lookups s1 field →
             Spec.first_assignment (body s1) x =
             Spec.first_assignment (body s2) x) →
       _find_single_string s1 field = _find_single_string s2 field) ∧
   ((∀ x, x ∈ install_requires_lookups s1 →
          Spec.first_assignment (body s1) x =
          Spec.first_assignment (body s2) x) →
    _find_install_requires s1 = _find_install_requires s2) ∧
   ((∀ x, x ∈ extras_require_lookups s1 →
          Spec.first_assignment (body s1) x =
          Spec.first_assignment (body s2) x) →
    _find_extras_require s1 = _find_extras_require s2) ∧
   ((∀ x, x ∈ consulted s1 →
          Spec.first_assignment (body s1) x =
          Spec.first_assignment (body s2) x) →
    content s1 = content s2)) ∧
  (∀ before c between later later' after,
      body s1 = before ++ c :: between ++ later :: after →
      body s2 = before ++ c :: between ++ later' :: after →
      is_setup_call c = true →
      is_setup_call later = true →
      is_setup_call later' = true →
      same_fields s1 s2).
Proof.
  split.
  - intros Hcall.
    assert (Hlook : ∀ names : list string,
      (∀ x, x ∈ names →
            Spec.first_assignment (body s1) x =
            Spec.first_assignment (body s2) x) →
      ∀ x, x ∈ names →
           _find_variable_in_body (body s1) x =
           _find_variable_in_body (body s2) x).
    { intros names H x Hx.
      by rewrite !find_variable_in_body_first_assignment, (H x Hx). }
    split; [|split; [|split]].
    + intros field H. by apply find_single_string_looked_up, Hlook.
    + intros H. by apply find_install_requires_looked_up, Hlook.
    + intros H. by apply find_extras_require_looked_up, Hlook.
    + intros H. by apply content_looked_up, Hlook.
  - intros before c between later later' after Hb1 Hb2 Hc Hl Hl'.
    assert (Hfront : ∃ c', _get_call_scan (before ++ [c]) = Some c').
    { rewrite get_call_scan_app.
      destruct (_get_call_scan before); [by eauto|].
      rewrite get_call_scan_cons, Hc. by eauto. }
    destruct Hfront as [c' Hc'].
    assert (Hscan : ∀ rest, _get_call_scan (before ++ c :: rest) = Some c').
    { intros rest.
      by rewrite (cons_middle c), app_assoc, get_call_scan_app, Hc'. }
    assert (Hshape : ∀ l, before ++ c :: between ++ l :: after =
                          (before ++ c :: between) ++ l :: after)
      by (intros l; rewrite <- app_assoc; reflexivity).
    apply same_first_same_fields.
    + unfold call, _get_call. fold (body s1) (body s2).
      by rewrite Hb1, Hb2, !Hscan.
    + intros x. rewrite Hb1, Hb2, !Hshape.
      rewrite !(first_assignment_app (before ++ c :: between)).
      destruct (Spec.first_assignment (before ++ c :: between) x); [done|].
      apply is_setup_call_spec in Hl as (? & ? & ->).
      by apply is_setup_call_spec in Hl' as (? & ? & ->).
Qed.

Lemma same_first_occurrences_same_fields_witness :
  content Scripts.unread_first = content Scripts.unread_moved ∧
  same_fields Scripts.two_calls Scripts.two_calls_changed.
Proof.
  split.
  - apply (proj1 (same_first_occurrences_same_fields
                    Scripts.unread_first Scripts.unread_moved) eq_refl).
    intros x Hx.
    change (consulted Scripts.unread_first) with ["version"] in Hx.
    apply elem_of_cons in Hx as [->|Hx]; [reflexivity|].
    by apply elem_of_nil in Hx.
  - exact (proj2 (same_first_occurrences_same_fields
                    Scripts.two_calls Scripts.two_calls_changed)
             [Assign [Name "version"] (Str "1")]
             (Call (Name "setup") []
                [Keyword (Some "version") (Name "version")])
             []
             (Call (Name "setup") [] [Keyword (Some "version") (Str "2")])
             (Call (Name "setup") [] [Keyword (Some "name") (Str "other")])
             [] eq_refl eq_refl eq_refl eq_refl eq_refl).
Defined.

(** The two scripts of the witness differ in the first-occurrence
    assignment of a name that is not looked up. *)
Example unread_name_moved :
  Spec.first_assignment (body Scripts.unread_first) "a" ≠
  Spec.first_assignment (body Scripts.unread_moved) "a" ∧
  consulted Scripts.unread_first = ["version"] ∧
  content Scripts.unread_first = content Scripts.unread_moved.
Proof. by repeat split. Qed.

(** ** The failure of the subprocess reader *)

Example strip_both_ends :
  Cmd.strip (Cmd.str (" a b  " +:+ Cmd.NL)) = Cmd.str "a b".
Proof. reflexivity. Qed.

Example split_lf_keeps_empty_pieces :
  Cmd.split_lf (Cmd.str ("a" +:+ Cmd.NL +:+ "b" +:+ Cmd.NL)) =
  [Cmd.str "a"; Cmd.str "b"; []].
Proof. reflexivity. Qed.

(** Sequences of one, two, three and four bytes, and bytes that are no
    UTF-8: a byte that can start no sequence, an overlong form, a surrogate,
    and a sequence that is cut short. *)
Example decode_examples :
  Cmd.decode (Cmd.bytes "boom") = Ok (Cmd.str "boom") ∧
  Cmd.decode [xc3; xa9] = Ok [233%N] ∧
  Cmd.decode [xe2; x82; xac] = Ok [8364%N] ∧
  Cmd.decode [xf0; x9f; x98; x80] = Ok [128512%N] ∧
  Cmd.decode [xff] = Raise UnicodeDecodeError ∧
  Cmd.decode [xc0; x80] = Raise UnicodeDecodeError ∧
  Cmd.decode [xed; xa0; x80] = Raise UnicodeDecodeError ∧
  Cmd.decode [x62; xc3] = Raise UnicodeDecodeError.
Proof. by repeat split. Qed.

Lemma decode_raises (b : list byte) (e : pyexn) :
  Cmd.decode b = Raise e → e = UnicodeDecodeError.
Proof. unfold Cmd.decode. destruct (Cmd.utf8 _); congruence. Qed.

Lemma split_lf_nonempty (s : text) : Cmd.split_lf s ≠ [].
Proof.
  induction s as [|c s IH]; [done|]. simpl.
  case_bool_decide; [done|]. by destruct (Cmd.split_lf s).
Qed.

Lemma split_lf_no_lf (s : text) : Cmd.no_lf s = true → Cmd.split_lf s = [s].
Proof.
  induction s as [|c s IH]; [done|]. simpl.
  case_bool_decide; [done|]. simpl. intros Hs. by rewrite IH.
Qed.

(** [(p + "\n" + s).split("\n") == p.split("\n") + s.split("\n")] *)
Lemma split_lf_app (p s : text) :
  Cmd.split_lf (p ++ Cmd.LF :: s) = Cmd.split_lf p ++ Cmd.split_lf s.
Proof.
  induction p as [|c p IH].
  - reflexivity.
  - rewrite <- app_comm_cons. simpl. rewrite IH.
    case_bool_decide; [done|].
    pose proof (split_lf_nonempty p). by destruct (Cmd.split_lf p).
Qed.

Lemma last_split_lf (before line : text) :
  (before = [] ∨ ∃ p, before = p ++ [Cmd.LF]) →
  Cmd.no_lf line = true →
  last (Cmd.split_lf (before ++ line)) = Some line.
Proof.
  intros [->|[p ->]] Hline.
  - by rewrite app_nil_l, split_lf_no_lf.
  - rewrite <- app_assoc. simpl. rewrite split_lf_app, last_app.
    by rewrite split_lf_no_lf.
Qed.

Lemma lstrip_app_kept (before rest : text) (c : N) :
  Cmd.isspace c = false →
  Cmd.lstrip (before ++ c :: rest) = Cmd.lstrip before ++ c :: rest.
Proof.
  intros Hc. induction before as [|b before IH].
  - simpl. by rewrite Hc.
  - rewrite <- app_comm_cons. simpl. by destruct (Cmd.isspace b).
Qed.

Lemma lstrip_line_start (before : text) :
  (before = [] ∨ ∃ p, before = p ++ [Cmd.LF]) →
  Cmd.lstrip before = [] ∨ ∃ p, Cmd.lstrip before = p ++ [Cmd.LF].
Proof.
  intros [->|[p ->]]; [by left|].
  induction p as [|c p IH].
  - by left.
  - rewrite <- app_comm_cons. simpl. destruct (Cmd.isspace c); [exact IH|].
    right. by exists (c :: p).
Qed.

Lemma rstrip_all_space (s : text) :
  Cmd.all_space s = true → Cmd.rstrip s = [].
Proof.
  induction s as [|c s IH]; [done|]. simpl.
  intros [Hc Hs]%andb_true_iff. by rewrite IH, Hc.
Qed.

Lemma rstrip_app_all_space (s trailing : text) :
  Cmd.all_space trailing = true →
  Cmd.rstrip (s ++ trailing) = Cmd.rstrip s.
Proof.
  intros Htrailing. induction s as [|c s IH].
  - by apply rstrip_all_space.
  - rewrite <- app_comm_cons. simpl. by rewrite IH.
Qed.

Lemma rstrip_kept (s : text) (z : N) :
  Cmd.last_char s = Some z → Cmd.isspace z = false → Cmd.rstrip s = s.
Proof.
  intros Hlast Hz. induction s as [|c s IH]; [done|].
  simpl in *. destruct s as [|c' s].
  - injection Hlast as ->. simpl. by rewrite Hz.
  - rewrite IH by done. done.
Qed.

Lemma last_char_app (s line : text) :
  line ≠ [] → Cmd.last_char (s ++ line) = Cmd.last_char line.
Proof.
  intros Hline. induction s as [|c s IH]; [done|].
  rewrite <- app_comm_cons. simpl. rewrite IH.
  destruct (s ++ line) eqn:Happ; [|done].
  by apply app_eq_nil in Happ as [_ ?].
Qed.

Lemma strip_line (before line trailing : text) :
  Cmd.trimmed line = true →
  Cmd.all_space trailing = true →
  Cmd.strip (before ++ line ++ trailing) = Cmd.lstrip before ++ line.
Proof.
  unfold Cmd.trimmed, Cmd.strip. intros Hline Htrailing.
  destruct line as [|a line]; [done|].
  destruct (Cmd.last_char (a :: line)) as [z|] eqn:Hlast; [|done].
  apply andb_true_iff in Hline as [Ha%negb_true_iff Hz%negb_true_iff].
  rewrite <- app_comm_cons, lstrip_app_kept by done.
  rewrite (app_comm_cons line), app_assoc.
  rewrite rstrip_app_all_space by done.
  apply (rstrip_kept _ z); [|done]. by rewrite last_char_app.
Qed.

Lemma split_lf_pieces (s : text) :
  Forall (λ piece, Cmd.no_lf piece = true) (Cmd.split_lf s).
Proof.
  induction s as [|c s IH]; [by repeat constructor|]. simpl.
  case_bool_decide as Hc; [by constructor|].
  pose proof (split_lf_nonempty s).
  destruct (Cmd.split_lf s) as [|piece pieces]; [done|].
  inversion IH as [|? ? Hpiece Hpieces]; subst.
  constructor; [|done]. simpl. rewrite Hpiece.
  by rewrite bool_decide_eq_false_2.
Qed.

(** What lines 48-49 do with a return code other than zero. *)
Lemma content_nonzero {A : Type} (result : Cmd.CompletedProcess)
    (load_and_clean : exn A) :
  Cmd.returncode result ≠ 0%Z →
  Cmd.content result load_and_clean =
  match Cmd.decode (Cmd.stderr result) with
  | Ok decoded =>
      match last (Cmd.split_lf (Cmd.strip decoded)) with
      | Some line => Raise (RuntimeError line)
      | None => Raise IndexError
      end
  | Raise e => Raise e
  end.
Proof.
  intros Hcode. unfold Cmd.content. rewrite bool_decide_eq_true_2 by done.
  by destruct (Cmd.decode (Cmd.stderr result)).
Qed.

(** The message for a stream that can be decoded: one line of the stripped
    text, the last. *)
Lemma last_line_of_stripped (decoded : text) :
  ∃ msg, last (Cmd.split_lf (Cmd.strip decoded)) = Some msg ∧
         Cmd.no_lf msg = true.
Proof.
  pose proof (split_lf_nonempty (Cmd.strip decoded)) as Hne.
  apply last_is_Some in Hne as [msg Hmsg]. exists msg. split; [done|].
  pose proof (split_lf_pieces (Cmd.strip decoded)) as Hall.
  rewrite Forall_forall in Hall. apply Hall.
  apply last_Some in Hmsg as [pieces ->]. set_solver.
Qed.

Lemma last_line_of_stripped_line (before line trailing : text) :
  (before = [] ∨ ∃ p, before = p ++ [Cmd.LF]) →
  Cmd.no_lf line = true →
  Cmd.trimmed line = true →
  Cmd.all_space trailing = true →
  last (Cmd.split_lf (Cmd.strip (before ++ line ++ trailing))) = Some line.
Proof.
  intros Hbefore Hno_lf Hline Htrailing. rewrite strip_line by done.
  rewrite last_split_lf; [done|by apply lstrip_line_start|done].
Qed.

(** The outcomes of [with cd(path): body]. *)
Lemma cd_outcome {D A B : Type} (h : Os.host D A)
    (path : string) (body : Os.io D B) (w : Os.world D) :
  (∀ c, Os.resolve h c (Os.cwd w) = Os.cwd w) →
  Os.isdir h (Os.disk w) (Os.cwd w) = true →
  (Os.isdir h (Os.disk w) (Os.resolve h (Os.cwd w) path) = false →
   Os.cd h path body w = (Raise (Os.oserror h path), w)) ∧
  (Os.isdir h (Os.disk w) (Os.resolve h (Os.cwd w) path) = true →
   ∀ r w1,
     body {| Os.cwd := Os.resolve h (Os.cwd w) path; Os.disk := Os.disk w |}
       = (r, w1) →
     (Os.isdir h (Os.disk w1) (Os.cwd w) = true →
      Os.cd h path body w =
        (r, {| Os.cwd := Os.cwd w; Os.disk := Os.disk w1 |})) ∧
     (Os.isdir h (Os.disk w1) (Os.cwd w) = false →
      Os.cd h path body w = (Raise (Os.oserror h (Os.cwd w)), w1))).
Proof.
  intros Habs Hold. split.
  - intros Htarget.
    unfold Os.cd, Os.io_bind, Os.getcwd, Os.chdir. rewrite Hold. simpl.
    by rewrite Htarget.
  - intros Htarget r w1 Hbody. split; intros Hdir;
      unfold Os.cd, Os.io_bind, Os.getcwd, Os.try_finally, Os.chdir;
      rewrite Hold; simpl; rewrite Htarget; simpl; rewrite Hbody; simpl;
      by rewrite Habs, Hdir.
Qed.

(** A run of [content] in which the temporary file is made, the directory
    of the script is entered, the child runs to its end and the old working
    directory is entered again: what is left are lines 48-53, in the old
    working directory and with the files as the child left them. *)
Lemma content_after_child {D A : Type} (h : Os.host D A)
    (self : Os.CommandReader) (w : Os.world D) (output_json : string)
    (d1 d2 : D) (result : Cmd.CompletedProcess) :
  (∀ c, Os.resolve h c (Os.cwd w) = Os.cwd w) →
  Os.NamedTemporaryFile h (Os.disk w) = (Ok output_json, d1) →
  Os.isdir h d1 (Os.cwd w) = true →
  Os.isdir h d1 (Os.resolve h (Os.cwd w) (Os.path_parent self)) = true →
  Os.subprocess_run h (Os.cmd h self output_json) (Os.package_root h)
    (Os.resolve h (Os.cwd w) (Os.path_parent self)) d1 = (Ok result, d2) →
  Os.isdir h d2 (Os.cwd w) = true →
  Os.content h self w =
  match Cmd.content result
          (Ok (Os.on_disk (Os.load_and_clean h output_json))) with
  | Ok continue => continue {| Os.cwd := Os.cwd w; Os.disk := d2 |}
  | Raise e => (Raise e, {| Os.cwd := Os.cwd w; Os.disk := d2 |})
  end.
Proof.
  intros Habs Htmp Hold Htarget Hrun Hback.
  unfold Os.content, Os.io_bind. unfold Os.on_disk at 1. rewrite Htmp.
  set (w1 := {| Os.cwd := Os.cwd w; Os.disk := d1 |}).
  destruct (cd_outcome h (Os.path_parent self)
              (λ w0, Os.on_disk
                       (Os.subprocess_run h (Os.cmd h self output_json)
                          (Os.package_root h) (Os.cwd w0)) w0) w1)
    as [_ Hcd]; [done..|].
  destruct (Hcd Htarget (Ok result)
              {| Os.cwd := Os.resolve h (Os.cwd w) (Os.path_parent self);
                 Os.disk := d2 |}) as [Hdone _].
  { unfold Os.on_disk. simpl. by rewrite Hrun. }
  rewrite (Hdone Hback). simpl.
  by destruct (Cmd.content result _).
Qed.

(** The claim C8 as it is stated fails.  When the child writes [boom],
    a space and a line feed and exits with the return code 1, the last line
    of its error stream is [boom] followed by the space, and the message of
    the failure is [boom] alone. *)
Lemma message_is_not_the_last_line :
  let stream := Cmd.bytes ("boom " +:+ Cmd.NL) in
  let decoded := Cmd.str ("boom " +:+ Cmd.NL) in
  Cmd.decode stream = Ok decoded ∧
  Spec.last_line decoded = Some (Cmd.str "boom ") ∧
  (Os.content (Os.example_host_writing stream 1 []) Os.example_reader
     Os.example_world).1 = Raise (RuntimeError (Cmd.str "boom")) ∧
  Spec.last_line decoded ≠ Some (Cmd.str "boom").
Proof. by repeat split. Qed.

(** C8, amended: when the child has run (the temporary file was made and
    the directory of the script entered), has exited with a return code
    other than zero, the old working directory is entered again, and the
    bytes of the error stream are UTF-8, [content] raises [RuntimeError],
    and the message is one line: the last line of the decoded error stream
    after whitespace is stripped from both ends of the whole text.  If the
    text ends with a line that neither starts nor ends with whitespace,
    followed by whitespace only, the message is that line. *)
Theorem nonzero_exit_raises_last_line {D A : Type} (h : Os.host D A)
    (self : Os.CommandReader) (w : Os.world D) (output_json : string)
    (d1 d2 : D) (result : Cmd.CompletedProcess) (decoded : text) :
  (∀ c, Os.resolve h c (Os.cwd w) = Os.cwd w) →
  Os.NamedTemporaryFile h (Os.disk w) = (Ok output_json, d1) →
  Os.isdir h d1 (Os.cwd w) = true →
  Os.isdir h d1 (Os.resolve h (Os.cwd w) (Os.path_parent self)) = true →
  Os.subprocess_run h (Os.cmd h self output_json) (Os.package_root h)
    (Os.resolve h (Os.cwd w) (Os.path_parent self)) d1 = (Ok result, d2) →
  Os.isdir h d2 (Os.cwd w) = true →
  Cmd.returncode result ≠ 0%Z →
  Cmd.decode (Cmd.stderr result) = Ok decoded →
  (∃ msg,
      (Os.content h self w).1 = Raise (RuntimeError msg) ∧
      last (Cmd.split_lf (Cmd.strip decoded)) = Some msg ∧
      Cmd.no_lf msg = true) ∧
  (∀ before line trailing,
      decoded = before ++ line ++ trailing →
      (before = [] ∨ ∃ p, before = p ++ [Cmd.LF]) →
      Cmd.no_lf line = true →
      Cmd.trimmed line = true →
      Cmd.all_space trailing = true →
      (Os.content h self w).1 = Raise (RuntimeError line)).
Proof.
  intros Habs Htmp Hold Htarget Hrun Hback Hcode Hdecode.
  rewrite (content_after_child h self w output_json d1 d2 result) by done.
  rewrite content_nonzero, Hdecode by done.
  split.
  - destruct (last_line_of_stripped decoded) as (msg & Hmsg & Hno_lf).
    exists msg. by rewrite Hmsg.
  - intros before line trailing -> Hbefore Hno_lf Hline Htrailing.
    by rewrite last_line_of_stripped_line.
Qed.

Lemma nonzero_exit_raises_last_line_witness :
  (Os.content
     (Os.example_host_writing
        (Cmd.bytes ("Traceback:" +:+ Cmd.NL +:+ "ValueError: bad" +:+ Cmd.NL))
        1 [])
     Os.example_reader Os.example_world).1 =
  Raise (RuntimeError (Cmd.str "ValueError: bad")).
Proof.
  refine (proj2 (nonzero_exit_raises_last_line
                   (Os.example_host_writing
                      (Cmd.bytes ("Traceback:" +:+ Cmd.NL
                                  +:+ "ValueError: bad" +:+ Cmd.NL)) 1 [])
                   Os.example_reader Os.example_world
                   "/tmp/out" ["/home"; "/src"] ["/home"; "/src"]
                   {| Cmd.returncode := 1;
                      Cmd.stderr :=
                        Cmd.bytes ("Traceback:" +:+ Cmd.NL
                                   +:+ "ValueError: bad" +:+ Cmd.NL) |}
                   (Cmd.str ("Traceback:" +:+ Cmd.NL
                             +:+ "ValueError: bad" +:+ Cmd.NL))
                   _ _ _ _ _ _ _ _)
                (Cmd.str ("Traceback:" +:+ Cmd.NL))
                (Cmd.str "ValueError: bad") (Cmd.str Cmd.NL) _ _ _ _ _).
  - done.
  - reflexivity.
  - reflexivity.
  - reflexivity.
  - reflexivity.
  - reflexivity.
  - done.
  - reflexivity.
  - reflexivity.
  - right. by exists (Cmd.str "Traceback:").
  - reflexivity.
  - reflexivity.
  - reflexivity.
Defined.

(** * Further properties of [_static.py] *)

(** ** What the flattener reaches *)

Lemma get_body_app (front rest : list node) :
  _get_body (front ++ rest) = _get_body front ++ _get_body rest.
Proof. unfold _get_body. by rewrite flat_map_app. Qed.

Lemma find_variable_in_body_app (front rest : list node) (name : string) :
  _find_variable_in_body (front ++ rest) name =
  match _find_variable_in_body front name with
  | Some value => Some value
  | None => _find_variable_in_body rest name
  end.
Proof.
  induction front as [|e front IH]; [done|].
  destruct e; try exact IH. simpl. by destruct (targets_bind targets name).
Qed.

(** X1: the call locator works statement by statement: a call found in an
    earlier part of a script hides every later one; the body of a function
    definition and the body of an [if] are searched where the statement
    stands, whether or not the function is ever called; an expression
    statement is the located call when it is a call of [setup]; and a call
    of [setup] that is the value of an assignment is not located. *)
Theorem get_call_statement_by_statement :
  (∀ front rest,
      _get_call (front ++ rest) =
      match _get_call front with
      | Some c => Some c
      | None => _get_call rest
      end) ∧
  (∀ name body, _get_call [FunctionDef name body] = _get_call body) ∧
  (∀ test body orelse, _get_call [If test body orelse] = _get_call body) ∧
  (∀ value,
      _get_call [Expr value] = if is_setup_call value then Some value
                               else None) ∧
  (∀ targets value, _get_call [Assign targets value] = None).
Proof.
  unfold _get_call. repeat split.
  - intros front rest. by rewrite get_body_app, get_call_scan_app.
  - intros name body. rewrite get_body_cons. by rewrite app_nil_r.
  - intros test body orelse. rewrite get_body_cons, get_call_scan_app.
    by destruct (_get_call_scan (_get_body body)).
  - intros value. rewrite get_body_cons. by rewrite get_call_scan_cons.
Qed.

(** X2: variable lookup knows no scopes: an assignment in an earlier part
    of a script hides every later one to the same name; assignments in the
    body of a function definition or of an [if] count as if they stood
    where the statement stands; and an assignment binds each bare name
    among its targets. *)
Theorem find_variable_knows_no_scopes (x : string) :
  (∀ front rest,
      _find_variable_in_body (_get_body (front ++ rest)) x =
      match _find_variable_in_body (_get_body front) x with
      | Some value => Some value
      | None => _find_variable_in_body (_get_body rest) x
      end) ∧
  (∀ name body,
      _find_variable_in_body (_get_body [FunctionDef name body]) x =
      _find_variable_in_body (_get_body body) x) ∧
  (∀ test body orelse,
      _find_variable_in_body (_get_body [If test body orelse]) x =
      _find_variable_in_body (_get_body body) x) ∧
  (∀ targets value,
      _find_variable_in_body (_get_body [Assign targets value]) x = Some value
      ↔ Name x ∈ targets).
Proof.
  repeat split.
  - intros front rest. by rewrite get_body_app, find_variable_in_body_app.
  - intros name body. rewrite get_body_cons. by rewrite app_nil_r.
  - intros test body orelse. rewrite get_body_cons, find_variable_in_body_app.
    by destruct (_find_variable_in_body (_get_body body) x).
  - rewrite <- targets_bind_spec. simpl.
    by destruct (targets_bind targets x).
  - intros Hin%targets_bind_spec. simpl. by rewrite Hin.
Qed.

(** ** Else-branches *)

Lemma flatten_element_drop_orelse (element : node) :
  Spec.flatten_element (Shape.drop_orelse element) =
  Spec.flatten_element element.
Proof.
  revert element. fix IH 1.
  intros [name body|test body orelse| | | | | | | | | |]; simpl; try reflexivity.
  - induction body as [|x body IHbody]; simpl; [done|].
    by rewrite IH, IHbody.
  - induction body as [|x body IHbody]; simpl; [done|].
    by rewrite IH, IHbody.
Qed.

Lemma flatten_drop_orelse (elements : list node) :
  Spec.flatten (map Shape.drop_orelse elements) = Spec.flatten elements.
Proof.
  unfold Spec.flatten. induction elements as [|x elements IH]; simpl; [done|].
  by rewrite flatten_element_drop_orelse, IH.
Qed.

Lemma calls_and_assignments_but_for_If (l1 l2 : list node) :
  List.filter (λ e, negb (is_If e)) l1 = List.filter (λ e, negb (is_If e)) l2 →
  List.filter (λ e, is_setup_call e || is_Assign e) l1 =
  List.filter (λ e, is_setup_call e || is_Assign e) l2.
Proof.
  intros Hfilter.
  rewrite <- (filter_filter_implied (λ e, is_setup_call e || is_Assign e)
                (λ e, negb (is_If e)) l1),
          <- (filter_filter_implied (λ e, is_setup_call e || is_Assign e)
                (λ e, negb (is_If e)) l2).
  - by rewrite Hfilter.
  - by intros [].
  - by intros [].
Qed.

(** X3: else-branches are never consulted: two scripts that differ only in
    the else-branches of their [if] statements (at the top of the script, in
    function bodies or in [if] bodies) have the same located call and
    resolve every field to the same value. *)
Theorem else_branches_are_not_consulted (s1 s2 : StaticReader) :
  map Shape.drop_orelse (tree s1) = map Shape.drop_orelse (tree s2) →
  call s1 = call s2 ∧ same_fields s1 s2.
Proof.
  intros Htree.
  assert (Hfilter :
    List.filter (λ e, is_setup_call e || is_Assign e) (body s1) =
    List.filter (λ e, is_setup_call e || is_Assign e) (body s2)).
  { apply calls_and_assignments_but_for_If. unfold body.
    rewrite !get_body_but_for_If.
    by rewrite <- (flatten_drop_orelse (tree s1)), Htree,
                 flatten_drop_orelse. }
  destruct (same_calls_and_assignments s1 s2 Hfilter) as [Hcall Hfirst].
  split; [done|]. by apply same_first_same_fields.
Qed.

Lemma else_branches_are_not_consulted_witness :
  call Shape.else_setup = call Shape.else_assign ∧
  _find_single_string Shape.else_setup "name" = Ok (Some "x") ∧
  _find_single_string Shape.else_assign "name" = Ok (Some "x").
Proof.
  destruct (else_branches_are_not_consulted Shape.else_setup Shape.else_assign)
    as [Hcall Hsame]; [reflexivity|].
  split; [exact Hcall|]. split; [reflexivity|].
  rewrite <- (proj1 Hsame "name"). reflexivity.
Defined.

(** ** Lookups that find nothing *)

(** X4: [_find_variable_in_body] returns [None] exactly when no assignment
    of the body has the bare name among its targets (tuple, attribute and
    subscript targets bind nothing), and what it returns is always the value
    of an assignment of the body with the bare name among its targets. *)
Theorem find_variable_in_body_only_assigned (flattened : list node)
    (name : string) :
  (_find_variable_in_body flattened name = None ↔
   ∀ targets value, Assign targets value ∈ flattened → Name name ∉ targets) ∧
  (∀ value,
      _find_variable_in_body flattened name = Some value →
      ∃ targets, Assign targets value ∈ flattened ∧ Name name ∈ targets).
Proof.
  induction flattened as [|e flattened [IHnone IHsome]].
  - split; [|done]. split; [|done]. by intros _ targets value ?%elem_of_nil.
  - assert (Hskip : (∀ targets value, e ≠ Assign targets value) →
      _find_variable_in_body (e :: flattened) name =
      _find_variable_in_body flattened name).
    { intros H. destruct e as [| | |ts v| | | | | | | |]; try done.
      by destruct (H ts v). }
    destruct e as [| | |targets value| | | | | | | |c];
      try (rewrite Hskip by done; split;
           [ rewrite IHnone; split;
             [ intros H targets value [?|?]%elem_of_cons; [done|by eapply H]
             | intros H targets value ?; eapply H; by right ]
           | intros value Hv; destruct (IHsome value Hv) as (targets & ? & ?);
             exists targets; split; [by right|done] ]).
    simpl. destruct (targets_bind targets name) eqn:Hbind.
    + apply targets_bind_spec in Hbind. split.
      * split; [done|]. intros H. destruct (H targets value); [by left|done].
      * intros v [= <-]. exists targets. split; [by left|done].
    + assert (Name name ∉ targets) as Hnot.
      { intros Hin%targets_bind_spec. congruence. }
      split.
      * rewrite IHnone. split.
        -- intros H targets' value' [[= -> ->]|?]%elem_of_cons;
             [done|by eapply H].
        -- intros H targets' value' ?. eapply H. by right.
      * intros v Hv. destruct (IHsome v Hv) as (targets' & ? & ?).
        exists targets'. split; [by right|done].
Qed.

(** X5: a lookup by name on a call returns [None] exactly when the call has
    no keyword of that name, and otherwise the value of a keyword of that
    name, never the value of a [**] argument; and [_find_call_kwargs]
    returns [None] exactly when the call has no [**] argument. *)
Theorem find_in_call_only_named (func : node) (args : list node)
    (keywords : list keyword) (name : string) :
  (_find_in_call (Some (Call func args keywords)) name = Ok None ↔
   ∀ value, Keyword (Some name) value ∉ keywords) ∧
  (∀ value,
      _find_in_call (Some (Call func args keywords)) name = Ok (Some value) →
      Keyword (Some name) value ∈ keywords) ∧
  (_find_call_kwargs (Some (Call func args keywords)) = Ok None ↔
   ∀ value, Keyword None value ∉ keywords).
Proof.
  simpl. split; [|split].
  - induction keywords as [|[arg value] keywords IH]; simpl.
    + split; [|done]. by intros _ value ?%elem_of_nil.
    + case_bool_decide as Harg.
      * subst. split; [done|]. intros H. destruct (H value). by left.
      * rewrite IH. split.
        -- intros H v [[= <- <-]|?]%elem_of_cons; [done|by eapply H].
        -- intros H v ?. eapply H. by right.
  - induction keywords as [|[arg value] keywords IH]; simpl; [done|].
    intros v. case_bool_decide as Harg.
    + intros [= <-]. subst. by left.
    + intros Hv. right. by apply IH.
  - split.
    + intros [= Hscan] value Hin.
      apply list_elem_of_split in Hin as (before & after & ->).
      assert (∃ v, _find_call_kwargs_scan
                     (rev (before ++ Keyword None value :: after)) = Some v)
        as [v Hv]; [|congruence].
      rewrite rev_app_distr. simpl. rewrite <- app_assoc.
      rewrite find_call_kwargs_scan_app.
      destruct (_find_call_kwargs_scan (rev after)); by eauto.
    + intros H. f_equal. apply find_call_kwargs_scan_named.
      apply Forall_forall. intros [[arg|] value] Hin; [done|].
      by destruct (H value).
Qed.

(** ** Which resolvers return, and what *)

(** X6: the resolver of the single-string fields never raises once a call
    is located, whatever the field name and whatever the script binds; run
    without a located call it raises [AttributeError] at the first line,
    which is why [content] checks the call first. *)
Theorem single_string_fields_never_raise (self : StaticReader)
    (field : string) :
  (call self ≠ None → ∃ r, _find_single_string self field = Ok r) ∧
  (call self = None → _find_single_string self field = Raise AttributeError).
Proof.
  split.
  - destruct (call self) as [c|] eqn:Hc; [|done]. intros _.
    by apply (find_single_string_returns self c).
  - intros Hc. unfold _find_single_string. by rewrite Hc.
Qed.

Lemma single_string_fields_never_raise_witness :
  (∃ r, _find_single_string Scripts.name_element "version" = Ok r) ∧
  _find_single_string Scripts.no_call "version" = Raise AttributeError.
Proof.
  split.
  - by apply (proj1 (single_string_fields_never_raise Scripts.name_element
                       "version")).
  - by apply (proj2 (single_string_fields_never_raise Scripts.no_call
                       "version")).
Defined.

Lemma mapM_attr_s_cons (x : node) (elts : list node) :
  mapM attr_s (x :: elts) =
  y ← attr_s x; k ← mapM attr_s elts; mret (y :: k).
Proof. reflexivity. Qed.

Lemma mapM_attr_s_strs (ss : list string) :
  mapM attr_s (Str <$> ss) = Ok (VStr <$> ss).
Proof.
  induction ss as [|s ss IH]; [done|].
  by rewrite !fmap_cons, mapM_attr_s_cons, IH.
Qed.

Lemma mapM_attr_s_returns (elts : list node) :
  Forall (λ x, Shape.has_s x = true) elts →
  ∃ vs, mapM attr_s elts = Ok vs ∧
        Forall2 (λ x v, attr_s x = Ok v) elts vs.
Proof.
  induction 1 as [|x elts Hx _ (vs & Hvs & Hall)].
  - exists []. by split.
  - rewrite mapM_attr_s_cons, Hvs.
    destruct x; try done; eexists; (split; [reflexivity|by constructor]).
Qed.

Lemma mapM_attr_s_AttributeError (elts : list node) (e : pyexn) :
  mapM attr_s elts = Raise e → e = AttributeError.
Proof.
  induction elts as [|x elts IH]; [done|]. rewrite mapM_attr_s_cons.
  destruct (attr_s x) as [v|e'] eqn:Hx; simpl.
  - destruct (mapM attr_s elts); [done|]. simpl. intros [= <-]. by apply IH.
  - intros [= <-]. destruct x; simpl in Hx; congruence.
Qed.

(** X7: when the located call has the keyword [install_requires] and its
    value is a list display, or a bare name whose first assignment is one,
    the resolver returns the value of each element, in order and with
    duplicates, if every element is a literal, whatever its type (a string,
    bytes, a number, [None], ...), and raises [AttributeError] if one
    element is anything else (a name, a call, an f-string, ...); string
    literals give their strings. *)
Theorem install_requires_of_a_list (self : StaticReader) (value : node)
    (elts : list node) :
  _find_in_call (call self) "install_requires" = Ok (Some value) →
  value = List elts ∨
  (∃ x, value = Name x ∧
        _find_variable_in_body (body self) x = Some (List elts)) →
  (Forall (λ x, Shape.has_s x = true) elts →
   ∃ vs, _find_install_requires self = Ok vs ∧
         Forall2 (λ x v, attr_s x = Ok v) elts vs) ∧
  (Exists (λ x, Shape.has_s x = false) elts →
   _find_install_requires self = Raise AttributeError) ∧
  (∀ ss, elts = Str <$> ss → _find_install_requires self = Ok (VStr <$> ss)).
Proof.
  intros Hvalue Hlist.
  assert (Hresult : _find_install_requires self = mapM attr_s elts).
  { unfold _find_install_requires. rewrite Hvalue. simpl.
    destruct Hlist as [->|(x & -> & Hx)]; simpl; [done|by rewrite Hx]. }
  rewrite Hresult. split; [|split].
  - apply mapM_attr_s_returns.
  - intros (x & Hin & Hx)%Exists_exists.
    apply (mapM_attr_s_raises _ x); [done|]. by destruct x.
  - intros ss ->. apply mapM_attr_s_strs.
Qed.

Lemma install_requires_of_a_list_witness :
  _find_install_requires Shape.requires_literal =
  Ok [VStr "a"; VStr "b"; VStr "a"] ∧
  ∃ vs, _find_install_requires Shape.requires_constants = Ok vs ∧
        Forall2 (λ x v, attr_s x = Ok v)
          [Str "a"; Constant (CInt 1); Constant CNone] vs.
Proof.
  split.
  - exact (proj2 (proj2 (install_requires_of_a_list Shape.requires_literal
                           (List (Str <$> ["a"; "b"; "a"]))
                           (Str <$> ["a"; "b"; "a"])
                           eq_refl (or_introl eq_refl)))
             ["a"; "b"; "a"] eq_refl).
  - apply (proj1 (install_requires_of_a_list Shape.requires_constants
                    (List [Str "a"; Constant (CInt 1); Constant CNone])
                    [Str "a"; Constant (CInt 1); Constant CNone]
                    eq_refl (or_introl eq_refl))).
    by repeat constructor.
Defined.

(** The list [["a", 1, None]] is returned as it stands, and a bare name
    among the elements makes the resolver raise. *)
Example install_requires_elements :
  _find_install_requires Shape.requires_constants =
  Ok [VStr "a"; VConstant (CInt 1); VConstant CNone] ∧
  _find_install_requires Scripts.name_element = Raise AttributeError.
Proof. by split. Qed.

(** ** The mapping of [extras_require] *)







(** ** What [content] returns and what it raises *)

(** X9: whenever [content] returns a dict, a call was located and the dict
    has exactly the five keys [name], [version], [python_requires],
    [install_requires] and [extras_require], each with the value its own
    resolver returned; a field that could not be resolved is present with
    [None], the empty list or the empty dict, never left out. *)
Theorem content_returns_five_keys (self : StaticReader)
    (m : gmap string field_value) :
  content self = Ok (Some m) →
  call self ≠ None ∧
  dom m = {[ "name"; "version"; "python_requires"; "install_requires";
             "extras_require" ]} ∧
  (∃ v, _find_single_string self "name" = Ok v ∧
        m !! "name" = Some (FString v)) ∧
  (∃ v, _find_single_string self "version" = Ok v ∧
        m !! "version" = Some (FString v)) ∧
  (∃ v, _find_single_string self "python_requires" = Ok v ∧
        m !! "python_requires" = Some (FString v)) ∧
  (∃ v, _find_install_requires self = Ok v ∧
        m !! "install_requires" = Some (FList v)) ∧
  (∃ v, _find_extras_require self = Ok v ∧
        m !! "extras_require" = Some (FDict v)).
Proof.
  unfold content. destruct (call self) as [c|]; [|done].
  destruct (_find_single_string self "name") as [n|]; [|done].
  destruct (_find_single_string self "version") as [v|]; [|done].
  destruct (_find_single_string self "python_requires") as [p|]; [|done].
  destruct (_find_install_requires self) as [i|]; [|done].
  destruct (_find_extras_require self) as [e|]; [|done].
  simpl. intros [= <-]. split; [done|].
  split; [rewrite !dom_insert_L, dom_empty_L; set_solver|].
  repeat split; eexists; (split; [reflexivity|by vm_compute]).
Qed.

Lemma content_returns_five_keys_witness :
  ∃ m : gmap string field_value,
    content Scripts.plain = Ok (Some m) ∧
    m !! "python_requires" = Some (FString None) ∧
    m !! "extras_require" = Some (FDict ∅) ∧
    m !! "author" = None.
Proof.
  eexists. split; [reflexivity|].
  destruct (content_returns_five_keys Scripts.plain _ eq_refl)
    as (_ & Hdom & _ & _ & (p & Hp & Hmp) & _ & (e & He & Hme)).
  split; [|split].
  - by injection Hp as <-.
  - by injection He as <-.
  - apply not_elem_of_dom.
    rewrite Hdom, !not_elem_of_union, !not_elem_of_singleton.
    by repeat split.
Defined.

Lemma install_requires_of_AttributeError (self : StaticReader)
    (value : option node) (e : pyexn) :
  install_requires_of self value = Raise e → e = AttributeError.
Proof.
  destruct value as [[]|]; simpl; try done.
  - destruct (_find_variable_in_body (body self) id) as [[]|]; try done.
    apply mapM_attr_s_AttributeError.
  - apply mapM_attr_s_AttributeError.
Qed.

Lemma extras_loop_AttributeError (self : StaticReader)
    (items : list (option node * node)) (acc : extras) (e : pyexn) :
  extras_loop self items acc = Raise e → e = AttributeError.
Proof.
  revert acc. induction items as [|[key val] items IH]; intros acc; [done|].
  assert (Hstep : ∀ elts,
    (l ← mapM attr_s elts; k ← key_s key;
     extras_loop self items (<[k := l]> acc)) = Raise e →
    e = AttributeError).
  { intros elts. destruct (mapM attr_s elts) as [l|e'] eqn:Hl; simpl.
    - destruct (key_s key) as [k|e'] eqn:Hk; simpl; [apply IH|].
      intros Hr. destruct key as [[]|]; simpl in Hk; congruence.
    - intros Hr. apply mapM_attr_s_AttributeError in Hl. congruence. }
  simpl. destruct val; try apply IH; [|apply Hstep].
  destruct (_find_variable_in_body (body self) id) as [[]|]; try apply IH.
  apply Hstep.
Qed.

Lemma extras_require_of_AttributeError (self : StaticReader)
    (value : option node) (e : pyexn) :
  extras_require_of self value = Raise e → e = AttributeError.
Proof.
  destruct value as [[]|]; simpl; try done.
  - destruct (_find_variable_in_body (body self) id) as [[]|]; try done.
    apply extras_loop_AttributeError.
  - apply extras_loop_AttributeError.
Qed.

Lemma find_install_requires_AttributeError (self : StaticReader) (c : node)
    (e : pyexn) :
  call self = Some c →
  _find_install_requires self = Raise e → e = AttributeError.
Proof.
  intros Hc. destruct (get_call_is_Call _ _ Hc) as (args & keywords & ->).
  unfold _find_install_requires. rewrite Hc. simpl.
  destruct (_find_in_call_scan keywords "install_requires");
    [apply install_requires_of_AttributeError|].
  destruct (_find_call_kwargs_scan (rev keywords)) as [[]|]; try done.
  destruct (_find_variable_in_body (body self) id) as [[]|]; simpl; try done.
  - destruct func; try done. case_bool_decide; [done|].
    apply install_requires_of_AttributeError.
  - apply install_requires_of_AttributeError.
Qed.

Lemma find_extras_require_AttributeError (self : StaticReader) (c : node)
    (e : pyexn) :
  call self = Some c →
  _find_extras_require self = Raise e → e = AttributeError.
Proof.
  intros Hc. destruct (get_call_is_Call _ _ Hc) as (args & keywords & ->).
  unfold _find_extras_require. rewrite Hc. simpl.
  destruct (_find_in_call_scan keywords "extras_require");
    [apply extras_require_of_AttributeError|].
  destruct (_find_call_kwargs_scan (rev keywords)) as [[]|]; try done.
  destruct (_find_variable_in_body (body self) id) as [[]|]; simpl; try done.
  - destruct func; try done. case_bool_decide; [done|].
    apply extras_require_of_AttributeError.
  - apply extras_require_of_AttributeError.
Qed.

(** Once the file is parsed, [content] raises nothing but
    [AttributeError], and only with a located call and through the resolver
    of [install_requires] or the resolver of [extras_require]. *)
Lemma content_raises_AttributeError (self : StaticReader) (e : pyexn) :
  content self = Raise e →
  e = AttributeError ∧ call self ≠ None ∧
  (_find_install_requires self = Raise AttributeError ∨
   _find_extras_require self = Raise AttributeError).
Proof.
  unfold content. destruct (call self) as [c|] eqn:Hc; [|done].
  destruct (find_single_string_returns self c "name" Hc) as [n ->].
  destruct (find_single_string_returns self c "version" Hc) as [v ->].
  destruct (find_single_string_returns self c "python_requires" Hc)
    as [p ->].
  simpl.
  destruct (_find_install_requires self) as [i|e'] eqn:Hi; simpl.
  - destruct (_find_extras_require self) as [x|e'] eqn:He; simpl; [done|].
    intros Hr. pose proof (find_extras_require_AttributeError _ _ _ Hc He).
    simplify_eq. by repeat split; [|right].
  - intros Hr. pose proof (find_install_requires_AttributeError _ _ _ Hc Hi).
    simplify_eq. by repeat split; [|left].
Qed.

(** X10: [content], read for the first time, raises what reading the file
    raises, what parsing it raises, and beyond that nothing but
    [AttributeError], and this only with a located call and through the
    resolver of [install_requires] or the resolver of [extras_require]: a
    script without a call of [setup], or one whose lists and dict displays
    hold literals only, never makes it raise once it is parsed. *)
Theorem content_raises_only_from_collections (fresh : Unparsed)
    (e : pyexn) :
  load_content fresh = Raise e →
  read_text fresh = Raise e ∨
  (∃ source, read_text fresh = Ok source ∧
             ast_parse fresh source = Raise e) ∨
  (∃ source elements,
      read_text fresh = Ok source ∧
      ast_parse fresh source = Ok elements ∧
      e = AttributeError ∧
      call {| tree := elements |} ≠ None ∧
      (_find_install_requires {| tree := elements |} = Raise AttributeError ∨
       _find_extras_require {| tree := elements |} = Raise AttributeError)).
Proof.
  unfold load_content, load_tree.
  destruct (read_text fresh) as [source|e0]; simpl;
    [|intros [= ->]; by left].
  destruct (ast_parse fresh source) as [elements|e0] eqn:Hparse; simpl.
  - intros He. right. right. exists source, elements.
    split; [done|]. split; [done|].
    by apply content_raises_AttributeError.
  - intros [= ->]. right. left. by exists source.
Qed.

Lemma content_raises_only_from_collections_witness :
  (_find_install_requires Scripts.name_element = Raise AttributeError ∨
   _find_extras_require Scripts.name_element = Raise AttributeError) ∧
  ast_parse Shape.file_open_call "setup(" = Raise SyntaxError.
Proof.
  split.
  - destruct (content_raises_only_from_collections Shape.file_name_element
                AttributeError eq_refl)
      as [Hread|[(source & _ & Hparse)|(source & elements & _ & Hparse & H)]].
    + discriminate Hread.
    + discriminate Hparse.
    + injection Hparse as <-. exact (proj2 (proj2 H)).
  - destruct (content_raises_only_from_collections Shape.file_open_call
                SyntaxError eq_refl)
      as [Hread|[(source & Hread & Hparse)|(source & elements & _ & _ & H & _)]].
    + discriminate Hread.
    + injection Hread as <-. exact Hparse.
    + discriminate H.
Defined.

(** * Further properties of [_cmd.py] *)

(** ** The message of the failure *)










(** Leading whitespace of the last line stays in the message, and a
    character of more than one byte is one character of it. *)
Example message_keeps_leading_whitespace :
  Cmd.content
    {| Cmd.returncode := 1;
       Cmd.stderr := Cmd.bytes ("Error:" +:+ Cmd.NL +:+ "  bad") |}
    (Ok ()) = Raise (RuntimeError (Cmd.str "  bad")) ∧
  Cmd.content
    {| Cmd.returncode := 1;
       Cmd.stderr := Cmd.bytes "caf" ++ [xc3; xa9; xe2; x80; x83] |}
    (Ok ()) = Raise (RuntimeError (Cmd.str "caf" ++ [233%N])).
Proof. by split. Qed.

(** ** The working directory *)

(** X12: [with cd(path): body] does not run the body when the directory
    cannot be entered, and the working directory stays; otherwise the body
    runs in that directory and, however it ends (returning or raising) and
    wherever it leaves the process, the working directory is the old one
    again and the outcome is the body's, unless the old directory is gone by
    then, in which case the error of the second [os.chdir] is what comes
    out. *)
Theorem cd_restores_the_working_directory {D A B : Type} (h : Os.host D A)
    (path : string) (body : Os.io D B) (w : Os.world D) :
  (∀ c, Os.resolve h c (Os.cwd w) = Os.cwd w) →
  Os.isdir h (Os.disk w) (Os.cwd w) = true →
  (Os.isdir h (Os.disk w) (Os.resolve h (Os.cwd w) path) = false →
   Os.cd h path body w = (Raise (Os.oserror h path), w)) ∧
  (Os.isdir h (Os.disk w) (Os.resolve h (Os.cwd w) path) = true →
   ∀ r w1,
     body {| Os.cwd := Os.resolve h (Os.cwd w) path; Os.disk := Os.disk w |}
       = (r, w1) →
     (Os.isdir h (Os.disk w1) (Os.cwd w) = true →
      Os.cd h path body w =
        (r, {| Os.cwd := Os.cwd w; Os.disk := Os.disk w1 |})) ∧
     (Os.isdir h (Os.disk w1) (Os.cwd w) = false →
      Os.cd h path body w = (Raise (Os.oserror h (Os.cwd w)), w1))).
Proof. apply cd_outcome. Qed.

Lemma cd_restores_the_working_directory_witness :
  Os.cd (B := ()) (Os.example_host 0 []) "/missing" (λ w, (Ok (), w))
    {| Os.cwd := "/home"; Os.disk := ["/home"; "/src"] |} =
  (Raise (OSError "/missing"),
   {| Os.cwd := "/home"; Os.disk := ["/home"; "/src"] |}) ∧
  Os.cd (B := ()) (Os.example_host 0 []) "/src"
    (λ w, (Raise IndexError, {| Os.cwd := "/"; Os.disk := Os.disk w |}))
    {| Os.cwd := "/home"; Os.disk := ["/home"; "/src"] |} =
  (Raise IndexError, {| Os.cwd := "/home"; Os.disk := ["/home"; "/src"] |}).
Proof.
  split.
  - by apply (cd_restores_the_working_directory (B := ())
                (Os.example_host 0 []) "/missing").
  - destruct (cd_restores_the_working_directory (B := ())
                (Os.example_host 0 []) "/src"
                (λ w, (Raise IndexError,
                       {| Os.cwd := "/"; Os.disk := Os.disk w |}))
                {| Os.cwd := "/home"; Os.disk := ["/home"; "/src"] |})
      as [_ Hrun]; [done..|].
    by apply (Hrun eq_refl (Raise IndexError)
                {| Os.cwd := "/"; Os.disk := ["/home"; "/src"] |}).
Defined.

Lemma cd_cwd {D A B : Type} (h : Os.host D A) (path : string)
    (body : Os.io D B) (w : Os.world D) (r : exn B) (w' : Os.world D) :
  (∀ c, Os.resolve h c (Os.cwd w) = Os.cwd w) →
  Os.cd h path body w = (r, w') →
  Os.cwd w' = Os.cwd w ∨
  r = Raise (Os.oserror h (Os.cwd w)) ∧
  Os.isdir h (Os.disk w') (Os.cwd w) = false.
Proof.
  intros Habs.
  destruct (Os.isdir h (Os.disk w) (Os.cwd w)) eqn:Hold.
  - destruct (cd_outcome h path body w Habs Hold) as [Hfail Hrun].
    destruct (Os.isdir h (Os.disk w) (Os.resolve h (Os.cwd w) path)).
    + destruct (body {| Os.cwd := Os.resolve h (Os.cwd w) path;
                        Os.disk := Os.disk w |}) as [r1 w1] eqn:Hbody.
      destruct (Hrun eq_refl r1 w1 eq_refl) as [Hback Hgone].
      destruct (Os.isdir h (Os.disk w1) (Os.cwd w)) eqn:Hdir.
      * rewrite (Hback eq_refl). intros Heq. injection Heq as <- <-.
        by left.
      * rewrite (Hgone eq_refl). intros Heq. injection Heq as <- <-.
        by right.
    + rewrite (Hfail eq_refl). intros Heq. injection Heq as <- <-. by left.
  - unfold Os.cd, Os.io_bind, Os.getcwd. rewrite Hold.
    intros Heq. injection Heq as <- <-. by left.
Qed.

(** X13: [CommandReader.content] leaves the process in the working
    directory it found it in, whatever happens: the temporary file cannot
    be made, the directory of the script cannot be entered, the child cannot
    be started, it exits with any return code, the JSON file cannot be read.
    The one exception is a working directory that no longer exists when the
    child is done: then the error of [os.chdir] is raised. *)
Theorem content_leaves_the_working_directory {D A : Type} (h : Os.host D A)
    (self : Os.CommandReader) (w : Os.world D) (r : exn A)
    (w' : Os.world D) :
  (∀ c, Os.resolve h c (Os.cwd w) = Os.cwd w) →
  Os.content h self w = (r, w') →
  Os.cwd w' = Os.cwd w ∨
  r = Raise (Os.oserror h (Os.cwd w)) ∧
  Os.isdir h (Os.disk w') (Os.cwd w) = false.
Proof.
  intros Habs. unfold Os.content, Os.io_bind.
  unfold Os.on_disk at 1.
  destruct (Os.NamedTemporaryFile h (Os.disk w)) as [[output_json|e] d1];
    [|intros Heq; injection Heq as <- <-; by left].
  set (w1 := {| Os.cwd := Os.cwd w; Os.disk := d1 |}).
  destruct (Os.cd h (Os.path_parent self) _ w1) as [[result|e] w2] eqn:Hcd;
    apply (cd_cwd h) in Hcd; try done.
  - destruct Hcd as [Hcwd|[? _]]; [|done]. simpl in Hcwd.
    unfold Cmd.content. case_bool_decide.
    + destruct (Cmd.decode _) as [decoded|]; simpl;
        [destruct (last _)|]; intros Heq; injection Heq as <- <-; by left.
    + unfold Os.on_disk.
      destruct (Os.load_and_clean h output_json (Os.disk w2)) as [r2 d3].
      intros Heq. injection Heq as <- <-. by left.
  - intros Heq. injection Heq as <- <-.
    destruct Hcd as [Hcwd|[He Hgone]]; [by left|right].
    injection He as ->. by split.
Qed.

Lemma content_leaves_the_working_directory_witness :
  Os.cwd (Os.content (Os.example_host 1 [])
            {| Os.path_parent := "/src"; Os.path_name := "setup.py" |}
            {| Os.cwd := "/home"; Os.disk := ["/home"; "/src"] |}).2 = "/home"
  ∧ (Os.content (Os.example_host 0 ["/home"])
       {| Os.path_parent := "/src"; Os.path_name := "setup.py" |}
       {| Os.cwd := "/home"; Os.disk := ["/home"; "/src"] |}).1 =
    Raise (OSError "/home").
Proof.
  split.
  - destruct (content_leaves_the_working_directory (Os.example_host 1 [])
                {| Os.path_parent := "/src"; Os.path_name := "setup.py" |}
                {| Os.cwd := "/home"; Os.disk := ["/home"; "/src"] |}
                _ _ (λ _, eq_refl) eq_refl) as [Hcwd|[_ Hgone]].
    + exact Hcwd.
    + discriminate Hgone.
  - destruct (content_leaves_the_working_directory
                (Os.example_host 0 ["/home"])
                {| Os.path_parent := "/src"; Os.path_name := "setup.py" |}
                {| Os.cwd := "/home"; Os.disk := ["/home"; "/src"] |}
                _ _ (λ _, eq_refl) eq_refl) as [Hcwd|[Hr _]].
    + discriminate Hcwd.
    + exact Hr.
Defined.

(** X14: a run in which the temporary file is made, the directory of the
    script is entered and left again and the child exits with a return code
    other than zero: the child was given the command line of [cmd] with the
    name of the temporary file last, and the directory of the script as its
    working directory; [content] raises, the [RuntimeError] of the last
    line of the error stream if its bytes are UTF-8 and
    [UnicodeDecodeError] if they are not; and the JSON file is not read, so
    the files are as the child left them. *)
Theorem content_of_a_failed_child {D A : Type} (h : Os.host D A)
    (self : Os.CommandReader) (w : Os.world D) (output_json : string)
    (d1 d2 : D) (result : Cmd.CompletedProcess) :
  (∀ c, Os.resolve h c (Os.cwd w) = Os.cwd w) →
  Os.NamedTemporaryFile h (Os.disk w) = (Ok output_json, d1) →
  Os.isdir h d1 (Os.cwd w) = true →
  Os.isdir h d1 (Os.resolve h (Os.cwd w) (Os.path_parent self)) = true →
  Os.subprocess_run h
    [Os.sys_executable h; Os.path_name self; "-q"; "--command-packages";
     "dephell_setuptools"; "distutils_cmd"; "-o"; output_json]
    (Os.package_root h)
    (Os.resolve h (Os.cwd w) (Os.path_parent self)) d1 = (Ok result, d2) →
  Os.isdir h d2 (Os.cwd w) = true →
  Cmd.returncode result ≠ 0%Z →
  (∀ decoded,
      Cmd.decode (Cmd.stderr result) = Ok decoded →
      ∃ msg,
        last (Cmd.split_lf (Cmd.strip decoded)) = Some msg ∧
        Os.content h self w =
          (Raise (RuntimeError msg),
           {| Os.cwd := Os.cwd w; Os.disk := d2 |})) ∧
  (∀ e,
      Cmd.decode (Cmd.stderr result) = Raise e →
      e = UnicodeDecodeError ∧
      Os.content h self w =
        (Raise UnicodeDecodeError, {| Os.cwd := Os.cwd w; Os.disk := d2 |})).
Proof.
  intros Habs Htmp Hold Htarget Hrun Hback Hcode.
  rewrite (content_after_child h self w output_json d1 d2 result) by done.
  rewrite content_nonzero by done. split.
  - intros decoded ->.
    destruct (last_line_of_stripped decoded) as (msg & Hmsg & _).
    exists msg. by rewrite Hmsg.
  - intros e He. pose proof (decode_raises _ _ He) as ->. by rewrite He.
Qed.

Lemma content_of_a_failed_child_witness :
  Os.content (Os.example_host 1 []) Os.example_reader Os.example_world =
  (Raise (RuntimeError (Cmd.str "boom")), Os.example_world) ∧
  Os.content (Os.example_host_writing [x62; xff] 1 []) Os.example_reader
    Os.example_world =
  (Raise UnicodeDecodeError, Os.example_world).
Proof.
  split.
  - destruct (content_of_a_failed_child (Os.example_host 1 [])
                Os.example_reader Os.example_world
                "/tmp/out" ["/home"; "/src"] ["/home"; "/src"]
                {| Cmd.returncode := 1; Cmd.stderr := Cmd.bytes "boom" |})
      as [Hdecoded _]; [done..|].
    destruct (Hdecoded (Cmd.str "boom") eq_refl) as (msg & Hmsg & Hcontent).
    injection Hmsg as <-. exact Hcontent.
  - destruct (content_of_a_failed_child
                (Os.example_host_writing [x62; xff] 1 [])
                Os.example_reader Os.example_world
                "/tmp/out" ["/home"; "/src"] ["/home"; "/src"]
                {| Cmd.returncode := 1; Cmd.stderr := [x62; xff] |})
      as [_ Hraise]; [done..|].
    exact (proj2 (Hraise UnicodeDecodeError eq_refl)).
Defined.

(** ** The distutils command *)

Section JSONCommand.
Import JSONCommand.
Variable FIELDS : gset string.

Lemma known_insert (data : gmap string pyobj) (key : string) (value : pyobj) :
  known FIELDS data → key ∈ FIELDS → is_unknown value = false →
  known FIELDS (<[key := value]> data).
Proof.
  intros Hdata Hkey Hvalue k v. destruct (decide (key = k)) as [<-|Hne].
  - rewrite lookup_insert_eq. by intros [= <-].
  - rewrite lookup_insert_ne by done. apply Hdata.
Qed.

Lemma attributes_known (items : list (string * pyobj))
    (data : gmap string pyobj) :
  known FIELDS data → known FIELDS (attributes FIELDS items data).1.
Proof.
  revert data. induction items as [|[key value] items IH]; intros data Hdata;
    [done|].
  simpl. case_bool_decide as Hkey.
  - specialize (IH data Hdata).
    by destruct (attributes FIELDS items data).
  - destruct (is_unknown (prepared key value)) eqn:Hvalue.
    + specialize (IH data Hdata).
      by destruct (attributes FIELDS items data).
    + specialize (IH (<[key := prepared key value]> data)).
      destruct (attributes FIELDS items _). apply IH.
      by apply known_insert.
Qed.

Lemma methods_known (dist : Distribution) (attrs : list (string * pyobj))
    (names : list string) (data data' : gmap string pyobj) :
  known FIELDS data → methods FIELDS dist attrs names data = Ok data' → known FIELDS data'.
Proof.
  revert data. induction names as [|func_name names IH]; intros data Hdata.
  - by intros [= <-].
  - simpl. destruct (String.prefix "get_" func_name); simpl; [|by apply IH].
    case_bool_decide as Hname; [by apply IH|].
    destruct (call_method dist func_name attrs) as [value|]; [|done]. simpl.
    destruct (is_unknown value) eqn:Hvalue; [by apply IH|].
    apply IH. by apply known_insert.
Qed.

(** X15: whenever [run] gets as far as writing, every key of the data is
    one of [FIELDS] and no value is ['UNKNOWN'], [None] or [['UNKNOWN']],
    wherever the value came from, an attribute or an accessor. *)
Theorem run_writes_known_fields_only (dist : Distribution)
    (data : gmap string pyobj) (key : string) (value : pyobj) :
  run FIELDS dist = Ok data →
  data !! key = Some value →
  key ∈ FIELDS ∧ is_unknown value = false.
Proof.
  unfold run. intros Hrun.
  pose proof (attributes_known (vars dist) ∅) as Hattrs.
  destruct (attributes FIELDS (vars dist) ∅) as [data0 attrs].
  apply (methods_known dist attrs (dir dist) data0 data); [|done].
  apply Hattrs. intros k v. by rewrite lookup_empty.
Qed.

Lemma substring_all (s : string) : String.substring 0 (String.length s) s = s.
Proof. induction s as [|c s IH]; [done|]. simpl. by rewrite IH. Qed.

(** A name that starts with [get_] is [get_] followed by [func_name[4:]]. *)
Lemma get_prefix (func_name : string) :
  String.prefix "get_" func_name = true →
  func_name = "get_" +:+ from_4 func_name.
Proof.
  destruct func_name as [|c1 [|c2 [|c3 [|c4 rest]]]]; simpl; try done;
    repeat (case_match; try done).
  intros _. subst. unfold from_4. simpl. rewrite Nat.sub_0_r.
  by rewrite substring_all.
Qed.

(** The accessors that could write [name] all report it unknown: the entry
    of [name] stays. *)
Lemma methods_keeps (dist : Distribution) (attrs : list (string * pyobj))
    (names : list string) (name : string) (data data' : gmap string pyobj) :
  (∀ func_name value,
      func_name ∈ names → String.prefix "get_" func_name = true →
      from_4 func_name = name →
      call_method dist func_name attrs = Ok value →
      is_unknown value = true) →
  methods FIELDS dist attrs names data = Ok data' →
  data' !! name = data !! name.
Proof.
  revert data. induction names as [|func_name names IH]; intros data Hnames.
  - by intros [= <-].
  - assert (Hrest : ∀ data0,
      methods FIELDS dist attrs names data0 = Ok data' →
      data' !! name = data0 !! name).
    { intros data0. apply IH. intros f v Hf. apply Hnames. by right. }
    simpl. destruct (String.prefix "get_" func_name) eqn:Hprefix; simpl;
      [|apply Hrest].
    case_bool_decide as Hname; [apply Hrest|].
    destruct (call_method dist func_name attrs) as [value|] eqn:Hcall;
      [|done]. simpl.
    destruct (is_unknown value) eqn:Hvalue; [apply Hrest|].
    intros Hrun. rewrite (Hrest _ Hrun).
    apply lookup_insert_ne. intros Heq.
    rewrite (Hnames func_name value) in Hvalue; [done|by left|done..].
Qed.

Lemma methods_cons (dist : Distribution) (attrs : list (string * pyobj))
    (func_name : string) (names : list string) (data : gmap string pyobj) :
  methods FIELDS dist attrs (func_name :: names) data =
  if negb (String.prefix "get_" func_name) then
    methods FIELDS dist attrs names data
  else if bool_decide (from_4 func_name ∉ FIELDS) then
    methods FIELDS dist attrs names data
  else
    value ← call_method dist func_name attrs;
    if is_unknown value then methods FIELDS dist attrs names data
    else methods FIELDS dist attrs names (<[from_4 func_name := value]> data).
Proof. reflexivity. Qed.

(** X16: an accessor wins over the attribute: if [dir] lists [get_] followed
    by the name of a field, and calling it returns a value that is known,
    then the data that [run] writes has that value for the field, whatever
    the attribute of the same name holds. *)
Theorem run_prefers_the_accessor (dist : Distribution)
    (data : gmap string pyobj) (name : string) (value : pyobj) :
  NoDup (dir dist) →
  "get_" +:+ name ∈ dir dist →
  name ∈ FIELDS →
  call_method dist ("get_" +:+ name) (attributes FIELDS (vars dist) ∅).2
    = Ok value →
  is_unknown value = false →
  run FIELDS dist = Ok data →
  data !! name = Some value.
Proof.
  unfold run. intros Hdup Hin Hname Hcall Hvalue.
  destruct (attributes FIELDS (vars dist) ∅) as [data0 attrs].
  simpl in Hcall. revert data0.
  induction (dir dist) as [|func_name names IH]; intros data0.
  - by apply elem_of_nil in Hin.
  - apply NoDup_cons in Hdup as [Hfresh Hdup].
    destruct (decide (func_name = "get_" +:+ name)) as [->|Hne].
    + assert (Hfrom : from_4 ("get_" +:+ name) = name).
      { unfold from_4. simpl. rewrite Nat.sub_0_r. apply substring_all. }
      assert (Hprefix : String.prefix "get_" ("get_" +:+ name) = true)
        by (by destruct name).
      rewrite methods_cons, Hprefix.
      simpl. rewrite Hfrom.
      rewrite bool_decide_eq_false_2 by (by intros ?).
      rewrite Hcall. simpl. rewrite Hvalue.
      intros Hrun.
      assert (Hnone : ∀ f v,
        f ∈ names → String.prefix "get_" f = true → from_4 f = name →
        call_method dist f attrs = Ok v → is_unknown v = true).
      { intros f v Hf Hp Hfrom' _. apply get_prefix in Hp.
        rewrite Hfrom' in Hp. by subst. }
      rewrite (methods_keeps dist attrs names name _ _ Hnone Hrun).
      apply lookup_insert_eq.
    + apply elem_of_cons in Hin as [?|Hin]; [done|].
      simpl. destruct (String.prefix "get_" func_name); simpl;
        [|by apply IH].
      case_bool_decide; [by apply IH|].
      destruct (call_method dist func_name attrs) as [v|]; [|done]. simpl.
      destruct (is_unknown v); by apply IH.
Qed.

Lemma attributes_other (items : list (string * pyobj))
    (data : gmap string pyobj) (key : string) :
  key ∉ items.*1 →
  (attributes FIELDS items data).1 !! key = data !! key.
Proof.
  revert data. induction items as [|[k v] items IH]; intros data Hkey; [done|].
  apply not_elem_of_cons in Hkey as [Hne Hkey]. simpl in Hne.
  simpl. case_bool_decide.
  - specialize (IH data Hkey). by destruct (attributes FIELDS items data).
  - destruct (is_unknown (prepared k v)).
    + specialize (IH data Hkey). by destruct (attributes FIELDS items data).
    + specialize (IH (<[k := prepared k v]> data) Hkey).
      destruct (attributes FIELDS items _). simpl in *.
      by rewrite IH, lookup_insert_ne.
Qed.

Lemma attributes_lookup (items : list (string * pyobj))
    (data : gmap string pyobj) (key : string) (value : pyobj) :
  NoDup items.*1 → (key, value) ∈ items → key ∈ FIELDS →
  is_unknown (prepared key value) = false →
  (attributes FIELDS items data).1 !! key = Some (prepared key value).
Proof.
  intros Hdup Hin Hkey Hvalue. revert data Hdup Hin.
  induction items as [|[k v] items IH]; intros data Hdup Hin.
  - by apply elem_of_nil in Hin.
  - apply NoDup_cons in Hdup as [Hfresh Hdup].
    apply elem_of_cons in Hin as [[= <- <-]|Hin].
    + simpl. rewrite bool_decide_eq_false_2 by (by intros ?).
      rewrite Hvalue.
      pose proof (attributes_other items (<[key := prepared key value]> data)
                    key Hfresh) as Hother.
      destruct (attributes FIELDS items _). simpl in *.
      by rewrite Hother, lookup_insert_eq.
    + simpl. case_bool_decide.
      * specialize (IH data Hdup Hin).
        by destruct (attributes FIELDS items data).
      * destruct (is_unknown (prepared k v)).
        -- specialize (IH data Hdup Hin).
           by destruct (attributes FIELDS items data).
        -- specialize (IH (<[k := prepared k v]> data) Hdup Hin).
           by destruct (attributes FIELDS items _).
Qed.

(** X17: an attribute that is a field and whose value is known reaches the
    data when no accessor overrides it, that is when [dir] has no accessor
    for the field or the accessor reports the field unknown; the value
    written is the attribute's, with the sets of [entry_points] turned into
    lists. *)
Theorem run_keeps_the_attribute (dist : Distribution)
    (data : gmap string pyobj) (key : string) (value : pyobj) :
  NoDup (vars dist).*1 →
  (key, value) ∈ vars dist →
  key ∈ FIELDS →
  is_unknown (prepared key value) = false →
  (∀ v, "get_" +:+ key ∈ dir dist →
        call_method dist ("get_" +:+ key)
          (attributes FIELDS (vars dist) ∅).2 = Ok v →
        is_unknown v = true) →
  run FIELDS dist = Ok data →
  data !! key = Some (prepared key value).
Proof.
  unfold run. intros Hdup Hin Hkey Hvalue Hmethod.
  pose proof (attributes_lookup (vars dist) ∅ key value Hdup Hin Hkey Hvalue)
    as Hattr.
  destruct (attributes FIELDS (vars dist) ∅) as [data0 attrs].
  simpl in *. intros Hrun.
  assert (Hnone : ∀ f v,
    f ∈ dir dist → String.prefix "get_" f = true → from_4 f = key →
    call_method dist f attrs = Ok v → is_unknown v = true).
  { intros f v Hf Hp Hfrom Hcall. apply get_prefix in Hp.
    rewrite Hfrom in Hp. subst f. by apply Hmethod. }
  by rewrite (methods_keeps dist attrs (dir dist) key _ _ Hnone Hrun).
Qed.

(** X18: [run] gets as far as writing only if every accessor of a field
    returned: one accessor that raises, or an attribute named like an
    accessor that cannot be called, and no file is written. *)
Theorem run_needs_every_accessor (dist : Distribution)
    (data : gmap string pyobj) (func_name : string) :
  run FIELDS dist = Ok data →
  func_name ∈ dir dist →
  String.prefix "get_" func_name = true →
  from_4 func_name ∈ FIELDS →
  ∃ value,
    call_method dist func_name (attributes FIELDS (vars dist) ∅).2 = Ok value.
Proof.
  unfold run. destruct (attributes FIELDS (vars dist) ∅) as [data0 attrs].
  simpl. revert data0.
  induction (dir dist) as [|f names IH]; intros data0 Hrun Hin Hprefix Hname.
  - by apply elem_of_nil in Hin.
  - simpl in Hrun. apply elem_of_cons in Hin as [->|Hin].
    + rewrite Hprefix in Hrun. simpl in Hrun.
      rewrite bool_decide_eq_false_2 in Hrun by (by intros ?).
      destruct (call_method dist f attrs) as [value|]; [by eauto|done].
    + destruct (String.prefix "get_" f); simpl in Hrun; [|by eapply IH].
      case_bool_decide; [by eapply IH|].
      destruct (call_method dist f attrs) as [v|]; [|done]. simpl in Hrun.
      destruct (is_unknown v); by eapply IH.
Qed.

End JSONCommand.

(** The example distribution: [run] returns, [get_version] gives the version
    that the attribute does not know, the name comes from the attribute and
    the set of the entry points is written as a list. *)
Lemma example_run :
  JSONCommand.run JSONCommand.example_FIELDS JSONCommand.example_dist =
  Ok (<["version" := JSONCommand.PStr "1.0"]>
      (<["entry_points" :=
           JSONCommand.PDict
             [(JSONCommand.PStr "console_scripts",
               JSONCommand.PList [JSONCommand.PStr "a = b:c"])]]>
      (<["name" := JSONCommand.PStr "pkg"]> ∅))).
Proof. reflexivity. Qed.

Lemma run_writes_known_fields_only_witness :
  "version" ∈ JSONCommand.example_FIELDS ∧
  JSONCommand.is_unknown (JSONCommand.PStr "1.0") = false.
Proof.
  apply (run_writes_known_fields_only JSONCommand.example_FIELDS
           JSONCommand.example_dist _ "version" (JSONCommand.PStr "1.0")
           example_run).
  reflexivity.
Defined.

Lemma run_prefers_the_accessor_witness :
  (<["version" := JSONCommand.PStr "1.0"]>
      (<["entry_points" :=
           JSONCommand.PDict
             [(JSONCommand.PStr "console_scripts",
               JSONCommand.PList [JSONCommand.PStr "a = b:c"])]]>
      (<["name" := JSONCommand.PStr "pkg"]> (∅ : gmap string JSONCommand.pyobj))))
    !! "version" = Some (JSONCommand.PStr "1.0").
Proof.
  apply (run_prefers_the_accessor JSONCommand.example_FIELDS
           JSONCommand.example_dist _ "version" (JSONCommand.PStr "1.0")).
  - apply (bool_decide_unpack _). reflexivity.
  - apply (bool_decide_unpack _). reflexivity.
  - apply (bool_decide_unpack _). reflexivity.
  - reflexivity.
  - reflexivity.
  - exact example_run.
Defined.

Lemma run_keeps_the_attribute_witness :
  (<["version" := JSONCommand.PStr "1.0"]>
      (<["entry_points" :=
           JSONCommand.PDict
             [(JSONCommand.PStr "console_scripts",
               JSONCommand.PList [JSONCommand.PStr "a = b:c"])]]>
      (<["name" := JSONCommand.PStr "pkg"]> (∅ : gmap string JSONCommand.pyobj))))
    !! "entry_points" =
  Some (JSONCommand.PDict
          [(JSONCommand.PStr "console_scripts",
            JSONCommand.PList [JSONCommand.PStr "a = b:c"])]).
Proof.
  apply (run_keeps_the_attribute JSONCommand.example_FIELDS
           JSONCommand.example_dist _ "entry_points"
           (JSONCommand.PDict
              [(JSONCommand.PStr "console_scripts",
                JSONCommand.PSet [JSONCommand.PStr "a = b:c"])])).
  - apply (bool_decide_unpack _). reflexivity.
  - simpl. do 3 (apply elem_of_cons; right). apply elem_of_cons. by left.
  - apply (bool_decide_unpack _). reflexivity.
  - reflexivity.
  - intros v Hin. exfalso. revert Hin. apply (bool_decide_unpack _).
    reflexivity.
  - exact example_run.
Defined.

Lemma run_needs_every_accessor_witness :
  ∃ value,
    JSONCommand.call_method JSONCommand.example_dist "get_url"
      (JSONCommand.attributes JSONCommand.example_FIELDS
         (JSONCommand.vars JSONCommand.example_dist) ∅).2 = Ok value.
Proof.
  apply (run_needs_every_accessor JSONCommand.example_FIELDS
           JSONCommand.example_dist _ "get_url" example_run).
  - apply (bool_decide_unpack _). reflexivity.
  - reflexivity.
  - apply (bool_decide_unpack _). reflexivity.
Defined.
